(** * Speaker classification: training, validation and inference control logic

    A shallow embedding of [Speaker_classification.ipynb]: the dataset's
    segment sampling, the batch collation, the data loaders, the classifier's
    layers, the learning-rate schedule, the validation pass, the training
    loop with its best-checkpoint bookkeeping, and the inference loop.

    Conventions.
    - Python integers are [Z]; lengths and positions of sequences are [nat].
    - Tensor entries (float32 in the notebook) are idealised as rationals [Q];
      the learning-rate multiplier, which needs [cos], is stated over [R].
      Rounding and NaN are outside the model, except for the one place where
      the notebook pushes integers through a float tensor (speaker labels),
      which is modelled with its roundings and its cast to int64.
    - A Python exception is a [Raise] in the [result] monad.  The device is
      the CPU.
    - A checkpoint file is identified by the path string it is opened with.
    - Tensors that the notebook mutates in place live in a [heap]; a
      [state_dict] is a list of names with heap locations, as in PyTorch,
      where [Module.state_dict()] returns references to the live storage.
    - What the notebook imports and does not define (Python's [random],
      torch's samplers, the Conformer block, the loss, autograd with AdamW)
      is gathered in the class [External]. *)

From Stdlib Require Import ZArith QArith Reals Lra Lia List.
From stdpp Require Import base gmap strings list pretty.
Import ListNotations.
Local Open Scope Z_scope.

(** ** Exceptions *)

Inductive exn : Type :=
  | StopIteration
  | ZeroDivisionError
  | ValueError
  | KeyError
  | IndexError
  | FileNotFoundError
  | RuntimeError.

Inductive result (A : Type) : Type :=
  | Ok (a : A)
  | Raise (e : exn).
Arguments Ok {A} a.
Arguments Raise {A} e.

(** [result] is a monad; stdpp's [x ← r; k] sequences statements and stops
    at the first exception. *)
#[global] Instance result_ret : MRet result := fun _ a => Ok a.
#[global] Instance result_bind : MBind result := fun _ _ k r =>
  match r with
  | Ok a => k a
  | Raise e => Raise e
  end.

Definition is_Ok {A : Type} (r : result A) : Prop := exists a, r = Ok a.

(** ** What the notebook imports *)

(** A tensor: its shape and its entries in row-major order. *)
Record tensor : Type := Tensor { shape : list nat; data : list Q }.

(** One mel-spectrogram frame is the list of its [n_mels] bins; a feature
    array ("mel") is the list of its frames. *)
Definition n_mels : nat := 40.
Definition frame : Type := list Q.
Definition mel : Type := list frame.

Class External : Type := {
  (** [random.randint a b], by the number of the call; [a <= b] where the
      notebook calls it. *)
  randint : nat -> Z -> Z -> Z;
  randint_range : forall n a b, a <= b -> a <= randint n a b <= b;
  (** [torch.randperm n] as drawn by the [RandomSampler] of the n-th pass. *)
  randperm : nat -> nat -> list nat;
  randperm_perm : forall pass n, Permutation (randperm pass n) (seq 0 n);
  (** Initial entries of a freshly constructed parameter, by name and index. *)
  init_value : string -> nat -> Q;
  (** [ConformerBlock(dim = d, ...)]: its named tensors, and its forward pass
      on a 3-dimensional input given the current values of those tensors and
      the module's [training] flag. *)
  conformer_tensors : nat -> list (string * tensor);
  conformer_forward : bool -> list tensor -> tensor -> tensor;
  conformer_forward_shape : forall training ts x,
    shape (conformer_forward training ts x) = shape x;
  (** The entries of the block's tensors after a forward pass in training
      mode, which updates the running statistics of its batch normalisation
      in place. *)
  conformer_track : list tensor -> tensor -> list (list Q);
  (** [nn.CrossEntropyLoss()] on logits and labels. *)
  cross_entropy : list (list Q) -> list Z -> Q;
  (** The state of [AdamW], and the effect of [loss.backward()] followed by
      [optimizer.step()] on the entries of the model's tensors (in
      [state_dict] order), at the learning rate the scheduler set for
      scheduler epoch [last_epoch]. *)
  optimizer_state : Type;
  AdamW : optimizer_state;
  train_update : Z -> optimizer_state -> list tensor -> list mel * list Z
                 -> optimizer_state * list (list Q);
}.

(** ** Python sequence helpers *)

(** A slice bound [i] against a sequence of length [n], as Python resolves
    it: negative bounds count from the end, and everything is clamped. *)
Definition slice_bound (n i : Z) : Z :=
  if i <? 0 then Z.max 0 (i + n) else Z.min i n.

(** [l[i:j]]. *)
Definition py_slice {A : Type} (l : list A) (i j : Z) : list A :=
  let n := Z.of_nat (length l) in
  let lo := slice_bound n i in
  let hi := slice_bound n j in
  take (Z.to_nat (hi - lo)) (drop (Z.to_nat lo) l).

(** ** Integers through a float32 tensor

    [torch.FloatTensor(xs).long()] on Python integers, or on one-element
    integer tensors: each integer is converted to a C double (53 significant
    bits), the double is cast to float32 (24 significant bits), both to
    nearest with ties to even, and [.long()] casts the float to int64.  The
    floats met here are integers, so the cast keeps the value when it is in
    the int64 range; for a float outside that range, infinity included, the
    conversion instruction of x86-64 returns -2^63.  Python integers from
    2^1024 on have no double at all ([OverflowError]); they are outside the
    model. *)

(** A non-negative integer rounded to [p] significant bits, to nearest,
    ties to even. *)
Definition round_nat (p a : Z) : Z :=
  if a <? 2 ^ p then a
  else
    let e := Z.log2 a - (p - 1) in
    let q := a / 2 ^ e in
    let r := a mod 2 ^ e in
    let h := 2 ^ (e - 1) in
    let q' := if (h <? r) || ((r =? h) && Z.odd q) then q + 1 else q in
    q' * 2 ^ e.

Definition float64_round_nat (a : Z) : Z := round_nat 53 a.
Definition float32_round_nat (a : Z) : Z := round_nat 24 a.

(** The value of the float32 that stores the integer [z]; a value of
    magnitude 2^128 or more stands for an infinity. *)
Definition float_of_int (z : Z) : Z :=
  let a := float32_round_nat (float64_round_nat (Z.abs z)) in
  if z <? 0 then - a else a.

(** The cast of an integer-valued float to int64. *)
Definition long_of_float (f : Z) : Z :=
  if (- 2 ^ 63 <=? f) && (f <? 2 ^ 63) then f else - 2 ^ 63.

Definition float_long (z : Z) : Z := long_of_float (float_of_int z).

(** An integer that float32 holds exactly (without regard to range). *)
Definition float32_repr (z : Z) : Prop :=
  exists m e, 0 <= e /\ Z.abs m < 2 ^ 24 /\ z = m * 2 ^ e.

(** An int64 that float32 holds exactly. *)
Definition float32_exact (z : Z) : Prop :=
  float32_repr z /\ - 2 ^ 63 <= z < 2 ^ 63.

(** ** myDataset *)

(** One entry of [self.data]: [feature_path, speaker id]. *)
Definition record : Type := (string * Z)%type.

Record myDataset : Type := {
  (** the feature files under [data_dir], by [feature_path] *)
  data_dir : gmap string mel;
  segment_len : Z;
  ds_data : list record;
  (** [len(metadata.keys())] *)
  speaker_num : nat;
}.

(** [myDataset.__getitem__]; [rng] numbers the call to [random.randint]. *)
Definition getitem `{External} (ds : myDataset) (rng : nat) (index : nat)
  : result (mel * Z) :=
  match ds_data ds !! index with
  | None => Raise IndexError
  | Some (feat_path, speaker) =>
    match data_dir ds !! feat_path with
    | None => Raise FileNotFoundError
    | Some m =>
      let len_mel := Z.of_nat (length m) in
      let m' :=
        if segment_len ds <? len_mel then
          let start := randint rng 0 (len_mel - segment_len ds) in
          py_slice m start (start + segment_len ds)
        else m in
      Ok (m', float_long speaker)
    end
  end.

(** ** collate_batch *)

Definition padding_value : Q := (-20) # 1.

(** The frame [pad_sequence] fills with. *)
Definition padding_frame : frame := replicate n_mels padding_value.

Definition max_len (mels : list mel) : nat :=
  foldr (fun m acc => Nat.max (length m) acc) 0%nat mels.

(** [pad_sequence(mels, batch_first=True, padding_value=-20)] on a non-empty
    tuple: a tensor of [len(mels)] rows of [max_len] frames, filled with the
    padding value, over which each sequence is copied from position 0. *)
Definition pad_sequence (mels : list mel) : list mel :=
  map (fun m => m ++ drop (length m) (replicate (max_len mels) padding_frame)) mels.

(** [collate_batch]: [zip( *batch)] cannot be unpacked into two names for an
    empty batch. *)
Definition collate_batch (batch : list (mel * Z)) : result (list mel * list Z) :=
  match batch with
  | [] => Raise ValueError
  | _ :: _ =>
    let mels := map fst batch in
    let speaker := map snd batch in
    Ok (pad_sequence mels, map float_long speaker)
  end.


(** ** Subsets and data loaders *)

(** A [Subset] as [random_split] returns it. *)
Record Subset : Type := {
  sub_dataset : myDataset;
  sub_indices : list nat;
}.

Definition subset_getitem `{External} (s : Subset) (rng : nat) (index : nat)
  : result (mel * Z) :=
  match sub_indices s !! index with
  | None => Raise IndexError
  | Some i => getitem (sub_dataset s) rng i
  end.

(** A [DataLoader] over a dataset of type [D]. *)
Record DataLoader (D : Type) : Type := {
  dataset : D;
  dataset_len : nat;
  batch_size : nat;
  shuffle : bool;
  drop_last : bool;
}.
Arguments dataset {D} _.
Arguments dataset_len {D} _.
Arguments batch_size {D} _.
Arguments shuffle {D} _.
Arguments drop_last {D} _.

(** [len(dataloader)]: the number of batches of one pass. *)
Definition loader_len {D : Type} (dl : DataLoader D) : nat :=
  if drop_last dl then (dataset_len dl / batch_size dl)%nat
  else ((dataset_len dl + batch_size dl - 1) / batch_size dl)%nat.

(** The order in which one pass visits the indices. *)
Definition sampler `{External} {D : Type} (dl : DataLoader D) (pass : nat) : list nat :=
  if shuffle dl then randperm pass (dataset_len dl) else seq 0 (dataset_len dl).

(** The index batches of one pass. *)
Definition batch_sampler {D : Type} (dl : DataLoader D) (order : list nat)
  : list (list nat) :=
  map (fun k => take (batch_size dl) (drop (k * batch_size dl) order))
      (seq 0 (loader_len dl)).

(** [iter(dataloader)]: the index batches still to be served. *)
Definition iter `{External} {D : Type} (dl : DataLoader D) (pass : nat)
  : list (list nat) :=
  batch_sampler dl (sampler dl pass).

(** A training or validation batch: the items of the indices, collated. *)
Definition fetch `{External} (s : Subset) (rng : nat) (indices : list nat)
  : result (list mel * list Z) :=
  items ← mapM (fun '(k, i) => subset_getitem s (rng + k) i) (imap pair indices);
  collate_batch items.

(** [next(iterator)] on a loader over a [Subset]. *)
Definition loader_next `{External} (s : Subset) (rng : nat) (it : list (list nat))
  : result ((list mel * list Z) * list (list nat)) :=
  match it with
  | [] => Raise StopIteration
  | indices :: it' => batch ← fetch s rng indices; Ok (batch, it')
  end.

(** [get_dataloader] for a constructed [myDataset(data_dir)]: the split takes
    the first [int(0.9 * len(dataset))] indices of a random permutation for
    training and the rest for validation.  [DataLoader(trainset,
    shuffle=True)] builds a [RandomSampler], which refuses an empty dataset,
    and every [DataLoader] builds a [BatchSampler], which refuses a batch
    size that is not positive: both raise ValueError. *)
Definition get_dataloader `{External} (ds : myDataset) (batch_size : nat)
  : result (DataLoader Subset * DataLoader Subset) :=
  let n := length (ds_data ds) in
  let trainlen := (9 * n / 10)%nat in
  let perm := randperm 0 n in
  let trainset := {| sub_dataset := ds; sub_indices := take trainlen perm |} in
  let validset := {| sub_dataset := ds; sub_indices := drop trainlen perm |} in
  if (trainlen =? 0)%nat || (batch_size =? 0)%nat then Raise ValueError
  else
    Ok ({| dataset := trainset; dataset_len := length (sub_indices trainset);
           batch_size := batch_size; shuffle := true; drop_last := true |},
        {| dataset := validset; dataset_len := length (sub_indices validset);
           batch_size := batch_size; shuffle := false; drop_last := true |}).

(** ** Tensors *)

Definition dim (t : tensor) (i : nat) : nat := nth i (shape t) 0%nat.

(** Entry [[i, j, k]] of a 3-dimensional tensor, [[i, j]] of a 2-dimensional
    one and [[i]] of a vector. *)
Definition get3 (t : tensor) (i j k : nat) : Q :=
  nth ((i * dim t 1 + j) * dim t 2 + k) (data t) 0%Q.
Definition get2 (t : tensor) (i j : nat) : Q :=
  nth (i * dim t 1 + j) (data t) 0%Q.
Definition get1 (t : tensor) (i : nat) : Q := nth i (data t) 0%Q.

Definition build3 (n0 n1 n2 : nat) (f : nat -> nat -> nat -> Q) : tensor :=
  Tensor [n0; n1; n2]
    (i ← seq 0 n0; j ← seq 0 n1; k ← seq 0 n2; [f i j k]).
Definition build2 (n0 n1 : nat) (f : nat -> nat -> Q) : tensor :=
  Tensor [n0; n1] (i ← seq 0 n0; j ← seq 0 n1; [f i j]).

Definition Qsum (l : list Q) : Q := foldr Qplus 0%Q l.

(** The padded batch [(batch size, length, 40)] as a tensor. *)
Definition tensor_of_batch (mels : list mel) : tensor :=
  build3 (length mels) (max_len mels) n_mels
    (fun b l k => nth k (nth l (nth b mels []) []) 0%Q).

(** ** The heap of tensors *)

Definition loc : Type := nat.
Definition heap : Type := list tensor.

#[global] Instance tensor_inhabited : Inhabited tensor := populate (Tensor [] []).

Definition alloc (h : heap) (t : tensor) : heap * loc := (h ++ [t], length h).

(** Overwrite the entries of the tensor at [l], keeping its shape. *)
Definition write_entries (h : heap) (l : loc) (d : list Q) : heap :=
  match h !! l with
  | Some t => <[l := Tensor (shape t) d]> h
  | None => h
  end.

Definition write_all (h : heap) (ls : list loc) (ds : list (list Q)) : heap :=
  foldl (fun h' '(l, d) => write_entries h' l d) h (zip ls ds).

(** What a reference list denotes in the current heap. *)
Definition deref (h : heap) (sd : list (string * loc)) : list (string * tensor) :=
  map (fun '(name, l) => (name, h !!! l)) sd.

(** ** Classifier *)

Record Linear : Type := { weight : loc; bias : loc }.

(** [nn.Linear(in_features, out_features)]. *)
Definition nn_Linear `{External} (name : string) (in_features out_features : nat)
  (h : heap) : heap * Linear :=
  let '(h, w) := alloc h (Tensor [out_features; in_features]
                    (map (init_value (name +:+ ".weight"))
                         (seq 0 (out_features * in_features)))) in
  let '(h, b) := alloc h (Tensor [out_features]
                    (map (init_value (name +:+ ".bias")) (seq 0 out_features))) in
  (h, {| weight := w; bias := b |}).

Record Classifier : Type := {
  prenet : Linear;
  conformer : list (string * loc);
  pred_layer : Linear;
  training : bool;
}.

Definition alloc_named (h : heap) (ts : list (string * tensor))
  : heap * list (string * loc) :=
  foldl (fun '(h', acc) '(name, t) =>
           let '(h'', l) := alloc h' t in (h'', acc ++ [(name, l)]))
        (h, []) ts.

(** [Classifier.__init__(d_model, n_spks, dropout)].  A fresh module is in
    training mode.  Neither [n_spks] nor (in this model, where the Conformer
    block is external) [dropout] reaches a tensor shape. *)
Definition Classifier_init `{External} (d_model n_spks : nat) (dropout : Q)
  (h : heap) : heap * Classifier :=
  let '(h, pre) := nn_Linear "prenet" n_mels d_model h in
  let '(h, conf) := alloc_named h (conformer_tensors d_model) in
  let '(h, pred) := nn_Linear "pred_layer.0" d_model 600 h in
  (h, {| prenet := pre; conformer := conf; pred_layer := pred; training := true |}).

Definition set_training (m : Classifier) (b : bool) : Classifier :=
  {| prenet := prenet m; conformer := conformer m; pred_layer := pred_layer m;
     training := b |}.

(** [model.state_dict()]: the names of the module's tensors with references
    to their live storage. *)
Definition state_dict (m : Classifier) : list (string * loc) :=
  [("prenet.weight"%string, weight (prenet m)); ("prenet.bias"%string, bias (prenet m))]
  ++ map (fun '(name, l) => (("conformer." +:+ name)%string, l)) (conformer m)
  ++ [("pred_layer.0.weight"%string, weight (pred_layer m));
      ("pred_layer.0.bias"%string, bias (pred_layer m))].

(** [F.linear] over the last dimension of a 3-dimensional input. *)
Definition linear3 (h : heap) (l : Linear) (x : tensor) : tensor :=
  let W := h !!! weight l in
  let b := h !!! bias l in
  build3 (dim x 0) (dim x 1) (dim W 0)
    (fun i j o => (Qsum (map (fun k => get3 x i j k * get2 W o k) (seq 0 (dim W 1)))
                   + get1 b o)%Q).

(** [F.linear] on a 2-dimensional input, as the rows of its result. *)
Definition linear_rows (h : heap) (l : Linear) (x : tensor) : list (list Q) :=
  let W := h !!! weight l in
  let b := h !!! bias l in
  map (fun i =>
         map (fun o => (Qsum (map (fun k => get2 x i k * get2 W o k) (seq 0 (dim W 1)))
                        + get1 b o)%Q)
             (seq 0 (dim W 0)))
      (seq 0 (dim x 0)).

(** [x.permute(1, 0, 2)], which is also [x.transpose(0, 1)]. *)
Definition transpose01 (x : tensor) : tensor :=
  build3 (dim x 1) (dim x 0) (dim x 2) (fun i j k => get3 x j i k).

(** [x.mean(dim=1)]. *)
Definition mean_dim1 (x : tensor) : tensor :=
  build2 (dim x 0) (dim x 2)
    (fun i k => (Qsum (map (fun j => get3 x i j k) (seq 0 (dim x 1)))
                 / inject_Z (Z.of_nat (dim x 1)))%Q).

Definition conformer_values (h : heap) (m : Classifier) : list tensor :=
  map (fun '(_, l) => h !!! l) (conformer m).

(** [Classifier.forward]: the logits, one row per item of the batch. *)
Definition forward `{External} (h : heap) (m : Classifier) (mels : tensor)
  : list (list Q) :=
  let out := linear3 h (prenet m) mels in
  let out := transpose01 out in
  let out := conformer_forward (training m) (conformer_values h m) out in
  let out := transpose01 out in
  let stats := mean_dim1 out in
  linear_rows h (pred_layer m) stats.

(** Calling the module: the logits, and the heap after the call.  Only a
    pass in training mode writes (the Conformer block's running statistics). *)
Definition call_model `{External} (h : heap) (m : Classifier) (mels : tensor)
  : list (list Q) * heap :=
  let outs := forward h m mels in
  let h' :=
    if training m then
      write_all h (map snd (conformer m))
        (conformer_track (conformer_values h m)
           (transpose01 (linear3 h (prenet m) mels)))
    else h in
  (outs, h').

(** [outs.argmax(1)] for one row: the position of the first largest logit. *)
Fixpoint argmax_from (best : nat) (best_val : Q) (i : nat) (row : list Q) : nat :=
  match row with
  | [] => best
  | x :: row' =>
    if Qlt_le_dec best_val x then argmax_from i x (S i) row'
    else argmax_from best best_val (S i) row'
  end.

Definition argmax (row : list Q) : nat :=
  match row with
  | [] => 0%nat
  | x :: row' => argmax_from 0 x 1 row'
  end.

(** [torch.mean((preds == labels).float())]. *)
Definition batch_accuracy (preds : list nat) (labels : list Z) : Q :=
  let hits := filter (fun '(p, l) => Z.of_nat p = l) (zip preds labels) in
  (inject_Z (Z.of_nat (length hits)) / inject_Z (Z.of_nat (length labels)))%Q.

(** A target [nn.CrossEntropyLoss()] accepts for logits of [n_classes]
    columns: a class index, or the [ignore_index], which is -100. *)
Definition target_ok (n_classes : nat) (label : Z) : bool :=
  (label =? -100) || ((0 <=? label) && (label <? Z.of_nat n_classes)).

(** [criterion(outs, labels)]: any other target raises IndexError. *)
Definition criterion `{External} (n_classes : nat) (outs : list (list Q))
  (labels : list Z) : result Q :=
  if forallb (target_ok n_classes) labels then Ok (cross_entropy outs labels)
  else Raise IndexError.

(** [model_fn(batch, model, device)]: loss and accuracy, and the heap after
    the forward pass.  The logits have as many columns as the last layer has
    output features. *)
Definition model_fn `{External} (batch : list mel * list Z) (h : heap) (m : Classifier)
  : result ((Q * Q) * heap) :=
  let '(mels, labels) := batch in
  let '(outs, h') := call_model h m (tensor_of_batch mels) in
  loss ← criterion (dim (h !!! weight (pred_layer m)) 0) outs labels;
  let preds := map argmax outs in
  Ok ((loss, batch_accuracy preds labels), h').


(** ** Learning-rate schedule *)

Local Open Scope R_scope.

(** [lr_lambda] of [get_cosine_schedule_with_warmup]. *)
Definition lr_lambda (num_warmup_steps num_training_steps : Z) (num_cycles : R)
  (current_step : Z) : R :=
  if (current_step <? num_warmup_steps)%Z then
    IZR current_step / IZR (Z.max 1 num_warmup_steps)
  else
    let progress :=
      IZR (current_step - num_warmup_steps)
      / IZR (Z.max 1 (num_training_steps - num_warmup_steps)) in
    Rmax 0 (0.5 * (1 + cos (PI * num_cycles * 2 * progress))).

(** The rate [LambdaLR] gives the optimizer at scheduler epoch [epoch], for
    the schedule the training entry point builds ([num_cycles] keeps its
    default 0.5). *)
Definition scheduled_lr (base_lr : R) (warmup_steps total_steps : Z) (epoch : Z) : R :=
  base_lr * lr_lambda warmup_steps total_steps 0.5 epoch.

Local Close Scope R_scope.

(** ** Validation *)

Definition Qltb (x y : Q) : bool := negb (Qle_bool y x).

(** The body of [valid]'s loop over the batches of one pass. *)
Fixpoint valid_loop `{External} (s : Subset) (it : list (list nat))
  (running_accuracy : Q) (h : heap) (m : Classifier) (rng : nat)
  : result (Q * heap * nat) :=
  match it with
  | [] => Ok (running_accuracy, h, rng)
  | indices :: it' =>
    batch ← fetch s rng indices;
    '((_, accuracy), h') ← model_fn batch h m;
    valid_loop s it' (running_accuracy + accuracy)%Q h' m (rng + length indices)%nat
  end.

(** [valid(dataloader, model, device)]: the mean accuracy, with the heap, the
    module and the random-call counter after the pass. *)
Definition valid `{External} (dl : DataLoader Subset) (h : heap) (m : Classifier)
  (rng : nat) : result (Q * (heap * Classifier * nat)) :=
  let m := set_training m false in
  '(running_accuracy, h, rng) ← valid_loop (dataset dl) (iter dl 0) 0%Q h m rng;
  let m := set_training m true in
  if (loader_len dl =? 0)%nat then Raise ZeroDivisionError
  else Ok ((running_accuracy / inject_Z (Z.of_nat (loader_len dl)))%Q, (h, m, rng)).

(** ** Checkpoint files *)

(** What [torch.save] writes for a state dict: names with tensor values. *)
Definition checkpoint : Type := list (string * tensor).

Definition torch_load (files : gmap string checkpoint) (path : string)
  : result checkpoint :=
  match files !! path with
  | Some c => Ok c
  | None => Raise FileNotFoundError
  end.

Definition assoc (name : string) (c : checkpoint) : option tensor :=
  snd <$> (snd <$> list_find (fun p => p.1 = name) c).

(** [model.load_state_dict(c)], strict: the names must be those of the
    module and the shapes must agree; the entries are copied in place. *)
Definition load_state_dict (h : heap) (m : Classifier) (c : checkpoint)
  : result heap :=
  let sd := state_dict m in
  if bool_decide (Forall (fun p => p.1 ∈ map fst sd) c)
     && bool_decide (Forall (fun p => (shape <$> assoc p.1 c) = Some (shape (h !!! p.2))) sd)
  then Ok (write_all h (map snd sd)
             (map (fun p => from_option data [] (assoc p.1 c)) sd))
  else Raise RuntimeError.

(** ** Training *)

Record config : Type := {
  save_path : string;
  cfg_batch_size : nat;
  valid_steps : Z;
  warmup_steps : Z;
  total_steps : Z;
  save_steps : Z;
}.

Record train_state `{External} : Type := {
  st_heap : heap;
  st_model : Classifier;
  st_optimizer : optimizer_state;
  (** [scheduler.last_epoch] *)
  st_last_epoch : Z;
  (** calls to the random generator so far, and passes started over the
      training loader *)
  st_rng : nat;
  st_passes : nat;
  train_iterator : list (list nat);
  best_accuracy : Q;
  best_state_dict : option (list (string * loc));
  (** the checkpoint files, and the calls to [torch.save] in order *)
  st_files : gmap string checkpoint;
  st_saved : list (string * checkpoint);
}.

(** [main] up to the loop. *)
Definition train_init `{External} (cfg : config) (ds : myDataset)
  (files : gmap string checkpoint)
  : result (DataLoader Subset * DataLoader Subset * train_state) :=
  '(train_loader, valid_loader) ← get_dataloader ds (cfg_batch_size cfg);
  let it := iter train_loader 1 in
  let '(h, model) := Classifier_init 320 (speaker_num ds) (4 # 10) [] in
  c ← torch_load files "model.ckpt";
  h ← load_state_dict h model c;
  Ok (train_loader, valid_loader,
      {| st_heap := h; st_model := model; st_optimizer := AdamW;
         st_last_epoch := 0; st_rng := 0; st_passes := 1;
         train_iterator := it;
         best_accuracy := (-1) # 1; best_state_dict := None;
         st_files := files; st_saved := [] |}).

(** Drawing the batch of one step: [next(train_iterator)], and on
    [StopIteration] a new iterator and its first batch. *)
Definition next_batch `{External} (train_loader : DataLoader Subset)
  (rng passes : nat) (it : list (list nat))
  : result ((list mel * list Z) * list (list nat) * nat) :=
  match loader_next (dataset train_loader) rng it with
  | Ok (batch, it') => Ok (batch, it', passes)
  | Raise StopIteration =>
    let it := iter train_loader (S passes) in
    '(batch, it') ← loader_next (dataset train_loader) rng it;
    Ok (batch, it', S passes)
  | Raise e => Raise e
  end.

(** The validation block of one step. *)
Definition validation_block `{External} (cfg : config)
  (valid_loader : DataLoader Subset) (step : Z)
  (h : heap) (m : Classifier) (rng : nat)
  (best : Q) (best_sd : option (list (string * loc)))
  : result (heap * Classifier * nat * Q * option (list (string * loc))) :=
  if valid_steps cfg =? 0 then Raise ZeroDivisionError
  else if (step + 1) mod valid_steps cfg =? 0 then
    '(valid_accuracy, (h, m, rng)) ← valid valid_loader h m rng;
    if Qltb best valid_accuracy
    then Ok (h, m, rng, valid_accuracy, Some (state_dict m))
    else Ok (h, m, rng, best, best_sd)
  else Ok (h, m, rng, best, best_sd).

(** The path of the archive copy written at [step]. *)
Definition archive_path (step : Z) : string :=
  ("./ckpt/" +:+ pretty (step + 1) +:+ ".ckpt")%string.

(** The save block of one step: the files and the log after it. *)
Definition save_block (cfg : config) (step : Z) (h : heap)
  (best_sd : option (list (string * loc)))
  (files : gmap string checkpoint) (saved : list (string * checkpoint))
  : result (gmap string checkpoint * list (string * checkpoint)) :=
  if save_steps cfg =? 0 then Raise ZeroDivisionError
  else
    match (step + 1) mod save_steps cfg =? 0, best_sd with
    | true, Some sd =>
      let c := deref h sd in
      Ok (<[archive_path step := c]> (<[save_path cfg := c]> files),
          saved ++ [(save_path cfg, c); (archive_path step, c)])
    | _, _ => Ok (files, saved)
    end.

(** [loss.backward()] and [optimizer.step()] on the heap [model_fn] left:
    they overwrite the entries of the module's tensors in place. *)
Definition optimizer_block `{External} (batch : list mel * list Z) (h : heap)
  (m : Classifier) (last_epoch : Z) (opt : optimizer_state)
  : heap * optimizer_state :=
  let '(opt, entries) :=
    train_update last_epoch opt (map snd (deref h (state_dict m))) batch in
  (write_all h (map snd (state_dict m)) entries, opt).

(** The update block of one step, from the heap before the step: the forward
    pass of [model_fn] in the module's current mode, then [optimizer_block]. *)
Definition update_block `{External} (batch : list mel * list Z) (h : heap)
  (m : Classifier) (last_epoch : Z) (opt : optimizer_state)
  : heap * optimizer_state :=
  optimizer_block batch (call_model h m (tensor_of_batch batch.1)).2 m last_epoch opt.

(** The body of the training loop at [step]. *)
Definition train_step `{External} (cfg : config)
  (train_loader valid_loader : DataLoader Subset) (step : Z) (st : train_state)
  : result train_state :=
  '(batch, it, passes) ←
    next_batch train_loader (st_rng st) (st_passes st) (train_iterator st);
  let rng := (st_rng st + batch_size train_loader)%nat in
  '(_, h) ← model_fn batch (st_heap st) (st_model st);
  let '(h, opt) :=
    optimizer_block batch h (st_model st) (st_last_epoch st) (st_optimizer st) in
  let last_epoch := st_last_epoch st + 1 in
  '(h, m, rng, best, best_sd) ←
    validation_block cfg valid_loader step h (st_model st) rng
      (best_accuracy st) (best_state_dict st);
  '(files, saved) ← save_block cfg step h best_sd (st_files st) (st_saved st);
  Ok {| st_heap := h; st_model := m; st_optimizer := opt;
        st_last_epoch := last_epoch; st_rng := rng; st_passes := passes;
        train_iterator := it;
        best_accuracy := best; best_state_dict := best_sd;
        st_files := files; st_saved := saved |}.

(** The first [n] iterations of [for step in range(total_steps)]. *)
Fixpoint train_loop `{External} (cfg : config)
  (train_loader valid_loader : DataLoader Subset) (n : nat) (st : train_state)
  : result train_state :=
  match n with
  | O => Ok st
  | S k =>
    st' ← train_loop cfg train_loader valid_loader k st;
    train_step cfg train_loader valid_loader (Z.of_nat k) st'
  end.

(** The training entry point. *)
Definition train_main `{External} (cfg : config) (ds : myDataset)
  (files : gmap string checkpoint) : result train_state :=
  '(train_loader, valid_loader, st) ← train_init cfg ds files;
  train_loop cfg train_loader valid_loader (Z.to_nat (total_steps cfg)) st.

(** ** Inference *)

Record InferenceDataset : Type := {
  inf_dir : gmap string mel;
  (** the [feature_path] of each utterance of [testdata.json] *)
  inf_data : list string;
}.

Definition inference_getitem (ds : InferenceDataset) (index : nat)
  : result (string * mel) :=
  match inf_data ds !! index with
  | None => Raise IndexError
  | Some feat_path =>
    match inf_dir ds !! feat_path with
    | None => Raise FileNotFoundError
    | Some m => Ok (feat_path, m)
    end
  end.

(** [inference_collate_batch]: [torch.stack] needs tensors of one shape. *)
Definition inference_collate_batch (batch : list (string * mel))
  : result (list string * tensor) :=
  match batch with
  | [] => Raise ValueError
  | (_, m0) :: _ =>
    let mels := map snd batch in
    if forallb (fun m => (length m =? length m0)%nat) mels
    then Ok (map fst batch, tensor_of_batch mels)
    else Raise RuntimeError
  end.

Definition inference_fetch (ds : InferenceDataset) (indices : list nat)
  : result (list string * tensor) :=
  items ← mapM (inference_getitem ds) indices;
  inference_collate_batch items.

(** [for feat_path, pred in zip(feat_paths, preds): results.append(...)]. *)
Fixpoint append_rows (id2speaker : gmap string string)
  (results : list (list string)) (pairs : list (string * nat))
  : result (list (list string)) :=
  match pairs with
  | [] => Ok results
  | (feat_path, pred) :: pairs' =>
    match id2speaker !! pretty pred with
    | None => Raise KeyError
    | Some name => append_rows id2speaker (results ++ [[feat_path; name]]) pairs'
    end
  end.

(** [for feat_paths, mels in dataloader: ...]. *)
Fixpoint inference_loop `{External} (ds : InferenceDataset)
  (id2speaker : gmap string string) (h : heap) (m : Classifier)
  (results : list (list string)) (it : list (list nat))
  : result (list (list string)) :=
  match it with
  | [] => Ok results
  | indices :: it' =>
    '(feat_paths, mels) ← inference_fetch ds indices;
    let '(outs, h') := call_model h m mels in
    let preds := map argmax outs in
    results' ← append_rows id2speaker results (zip feat_paths preds);
    inference_loop ds id2speaker h' m results' it'
  end.

(** The inference entry point: the rows handed to the CSV writer. *)
Definition inference_main `{External} (ds : InferenceDataset)
  (id2speaker : gmap string string) (files : gmap string checkpoint)
  (model_path : string) : result (list (list string)) :=
  let dataloader :=
    {| dataset := ds; dataset_len := length (inf_data ds); batch_size := 1;
       shuffle := false; drop_last := false |} in
  let speaker_num := size id2speaker in
  let '(h, model) := Classifier_init 320 speaker_num (4 # 10) [] in
  c ← torch_load files model_path;
  h ← load_state_dict h model c;
  let model := set_training model false in
  inference_loop ds id2speaker h model [["Id"; "Category"]%string] (iter dataloader 0).

(** ** The results table in the specification's words

    One row per utterance of the inference set, in input order: the
    utterance's feature path, and the speaker name that the id-to-speaker
    mapping gives for the arg-max logit of the encoder run on the whole
    feature array of that utterance. *)

Definition inference_row `{External} (ds : InferenceDataset)
  (id2speaker : gmap string string) (h : heap) (m : Classifier)
  (feat_path : string) : result (list string) :=
  match inf_dir ds !! feat_path with
  | None => Raise FileNotFoundError
  | Some whole =>
    let logits := hd [] (forward h m (tensor_of_batch [whole])) in
    match id2speaker !! pretty (argmax logits) with
    | None => Raise KeyError
    | Some name => Ok [feat_path; name]
    end
  end.

Definition results_table `{External} (ds : InferenceDataset)
  (id2speaker : gmap string string) (h : heap) (m : Classifier)
  : result (list (list string)) :=
  rows ← mapM (inference_row ds id2speaker h m) (inf_data ds);
  Ok (["Id"; "Category"]%string :: rows).

(** ** A small instance of the imports

    Used to run the definitions on concrete inputs: the generator returns
    the left end of its range, the sampler the identity permutation, the
    Conformer block has no tensors and returns its input, and the optimizer
    adds one to every entry of every tensor. *)

Lemma toy_randint_range (n : nat) (a b : Z) : a <= b -> a <= a <= b.
Proof. lia. Qed.

Definition toy_external : External := {|
  randint := fun _ a _ => a;
  randint_range := toy_randint_range;
  randperm := fun _ n => seq 0 n;
  randperm_perm := fun _ n => Permutation_refl (seq 0 n);
  init_value := fun _ _ => 0%Q;
  conformer_tensors := fun _ => [];
  conformer_forward := fun _ _ x => x;
  conformer_forward_shape := fun _ _ _ => eq_refl;
  conformer_track := fun _ _ => [];
  cross_entropy := fun _ _ => 0%Q;
  optimizer_state := unit;
  AdamW := tt;
  train_update := fun _ _ ts _ => (tt, map (fun t => map (Qplus 1) (data t)) ts);
|}.

(** A feature file of three frames and a dataset of [n] utterances of it. *)
Definition toy_frame (x : Z) : frame := replicate n_mels (x # 1).
Definition toy_mel : mel := [toy_frame 1; toy_frame 2; toy_frame 3].
Definition toy_dataset (segment_len : Z) (n : nat) : myDataset :=
  {| data_dir := {[ "uttr-a.pt"%string := toy_mel ]};
     segment_len := segment_len;
     ds_data := replicate n ("uttr-a.pt"%string, 1);
     speaker_num := 2 |}.

(** Two utterances of different lengths; the id of the second is not a
    float32. *)
Definition toy_dataset2 : myDataset :=
  {| data_dir := {[ "uttr-a.pt"%string := toy_mel;
                    "uttr-b.pt"%string := [toy_frame 4] ]};
     segment_len := 128;
     ds_data := [("uttr-a.pt"%string, 7); ("uttr-b.pt"%string, 16777217)];
     speaker_num := 2 |}.

(** A module with one hidden unit and two classes, its four tensors, and
    loaders over [n] utterances in batches of [batch_size]. *)
Definition toy_heap : heap :=
  [Tensor [1; 40]%nat (replicate 40 0%Q); Tensor [1%nat] [0%Q];
   Tensor [2; 1]%nat [0%Q; 1%Q]; Tensor [2%nat] [0%Q; 0%Q]].
Definition toy_model : Classifier :=
  {| prenet := {| weight := 0%nat; bias := 1%nat |}; conformer := [];
     pred_layer := {| weight := 2%nat; bias := 3%nat |}; training := true |}.
Definition toy_loader (n batch_size : nat) (shuffle : bool) : DataLoader Subset :=
  {| dataset := {| sub_dataset := toy_dataset 128 n; sub_indices := seq 0 n |};
     dataset_len := n; batch_size := batch_size; shuffle := shuffle;
     drop_last := true |}.
Definition toy_config : config :=
  {| save_path := "model.ckpt"; cfg_batch_size := 1; valid_steps := 1;
     warmup_steps := 1; total_steps := 2; save_steps := 2 |}.
Definition toy_state : train_state (H := toy_external) :=
  {| st_heap := toy_heap; st_model := toy_model;
     st_optimizer := @AdamW toy_external;
     st_last_epoch := 0; st_rng := 0%nat; st_passes := 1%nat;
     train_iterator := iter (H := toy_external) (toy_loader 2 1 true) 1;
     best_accuracy := (-1) # 1; best_state_dict := None;
     st_files := ∅; st_saved := [] |}.

(** The state of the small run after [n] steps. *)
Definition toy_after (n : nat) : train_state (H := toy_external) :=
  match train_loop (H := toy_external) toy_config (toy_loader 2 1 true)
          (toy_loader 2 1 false) n toy_state with
  | Ok st => st
  | Raise _ => toy_state
  end.

(** A checkpoint file for the module the entry points construct, and a
    configuration with the notebook's batch size. *)
Definition toy_checkpoint : checkpoint :=
  let hm := Classifier_init (H := toy_external) 320 2 (4 # 10) [] in
  deref hm.1 (state_dict hm.2).
Definition toy_files : gmap string checkpoint :=
  {[ "model.ckpt"%string := toy_checkpoint ]}.
Definition small_config : config :=
  {| save_path := "model.ckpt"; cfg_batch_size := 32; valid_steps := 2000;
     warmup_steps := 10000; total_steps := 3; save_steps := 10000 |}.

(** ** myDataset.__init__

    [metadata.json] lists, speaker by speaker, the utterances of that
    speaker; [mapping.json] gives the id of each speaker.  The metadata is
    the list of the items of the loaded dict, in its iteration order (its
    keys, the speakers, are distinct). *)

Record utterance : Type := { feature_path : string; mel_len : Z }.

(** [for utterances in metadata[speaker]: self.data.append(...)]. *)
Fixpoint init_speaker (speaker2id : gmap string Z) (speaker : string)
  (utterances : list utterance) (data : list record) : result (list record) :=
  match utterances with
  | [] => Ok data
  | u :: rest =>
    match speaker2id !! speaker with
    | None => Raise KeyError
    | Some id => init_speaker speaker2id speaker rest (data ++ [(feature_path u, id)])
    end
  end.

(** [for speaker in metadata.keys(): ...]. *)
Fixpoint init_data (speaker2id : gmap string Z)
  (metadata : list (string * list utterance)) (data : list record)
  : result (list record) :=
  match metadata with
  | [] => Ok data
  | (speaker, utterances) :: rest =>
    data' ← init_speaker speaker2id speaker utterances data;
    init_data speaker2id rest data'
  end.

(** [myDataset(data_dir, segment_len)]. *)
Definition myDataset_init (files : gmap string mel) (speaker2id : gmap string Z)
  (metadata : list (string * list utterance)) (segment_len : Z) : result myDataset :=
  data ← init_data speaker2id metadata [];
  Ok {| data_dir := files; segment_len := segment_len; ds_data := data;
        speaker_num := length metadata |}.

(** The records the constructor is to build: each utterance's feature path
    with the id of its speaker, in the order of the metadata. *)
Definition records_of (speaker2id : gmap string Z)
  (metadata : list (string * list utterance)) : list record :=
  flat_map (fun '(speaker, utterances) =>
              map (fun u => (feature_path u, default 0 (speaker2id !! speaker)))
                  utterances)
           metadata.

(** The example of the specification: two speakers with three and two
    utterances. *)
Definition example_speaker2id : gmap string Z :=
  {[ "id10001"%string := 0; "id10002"%string := 1 ]}.
Definition example_metadata : list (string * list utterance) :=
  [("id10001"%string,
    [{| feature_path := "uttr-1.pt"; mel_len := 100 |};
     {| feature_path := "uttr-2.pt"; mel_len := 200 |};
     {| feature_path := "uttr-3.pt"; mel_len := 150 |}]);
   ("id10002"%string,
    [{| feature_path := "uttr-4.pt"; mel_len := 90 |};
     {| feature_path := "uttr-5.pt"; mel_len := 300 |}])].

(** * Properties *)
(** ** Integers through float32 *)

Lemma round_nat_exact (p m e : Z) :
  0 < p -> 0 <= e -> 0 <= m < 2 ^ p -> round_nat p (m * 2 ^ e) = m * 2 ^ e.
Proof.
  intros Hp He Hm. unfold round_nat.
  destruct (Z.ltb_spec (m * 2 ^ e) (2 ^ p)) as [Hlt|Hge]; [reflexivity|].
  set (a := m * 2 ^ e) in *.
  assert (Hpe : 0 < 2 ^ e) by (apply Z.pow_pos_nonneg; lia).
  assert (Hpp : 0 < 2 ^ p) by (apply Z.pow_pos_nonneg; lia).
  assert (Ha : 0 < a) by lia.
  assert (Hlo : p <= Z.log2 a).
  { apply Z.log2_le_pow2; lia. }
  assert (Hhi : Z.log2 a < p + e).
  { apply Z.log2_lt_pow2; [lia|]. rewrite Z.pow_add_r by lia. subst a. nia. }
  set (E := Z.log2 a - (p - 1)) in *.
  assert (HE : 1 <= E <= e) by lia.
  assert (Hsplit : 2 ^ e = 2 ^ (e - E) * 2 ^ E).
  { rewrite <- Z.pow_add_r by lia. f_equal. lia. }
  assert (HpE : 0 < 2 ^ E) by (apply Z.pow_pos_nonneg; lia).
  assert (Hr : a mod 2 ^ E = 0).
  { subst a. rewrite Hsplit, Z.mul_assoc. apply Z_mod_mult. }
  assert (Hh : 0 < 2 ^ (E - 1)) by (apply Z.pow_pos_nonneg; lia).
  cbv zeta. rewrite Hr.
  destruct (Z.ltb_spec (2 ^ (E - 1)) 0) as [?|_]; [lia|].
  destruct (Z.eqb_spec 0 (2 ^ (E - 1))) as [?|_]; [lia|].
  cbn [orb andb].
  pose proof (Z.div_mod a (2 ^ E)) as Hdm. rewrite Hr in Hdm. lia.
Qed.

(** Rounding to [p] bits gives an integer of at most [p] significant bits. *)
Lemma round_nat_repr (p a : Z) :
  0 < p -> 0 <= a ->
  (exists m e, 0 <= e /\ 0 <= m < 2 ^ p /\ round_nat p a = m * 2 ^ e)
  /\ 0 <= round_nat p a.
Proof.
  intros Hp Ha. unfold round_nat.
  assert (Hpp : 0 < 2 ^ p) by (apply Z.pow_pos_nonneg; lia).
  destruct (Z.ltb_spec a (2 ^ p)) as [Hlt|Hge].
  { split; [|lia]. exists a, 0. change (2 ^ 0) with 1. lia. }
  assert (Hlo : p <= Z.log2 a) by (apply Z.log2_le_pow2; lia).
  set (E := Z.log2 a - (p - 1)) in *.
  assert (HE : 1 <= E) by lia.
  assert (HpE : 0 < 2 ^ E) by (apply Z.pow_pos_nonneg; lia).
  assert (Hq : 0 <= a / 2 ^ E < 2 ^ p).
  { split; [apply Z.div_pos; lia|].
    apply Z.div_lt_upper_bound; [lia|].
    rewrite <- Z.pow_add_r by lia.
    replace (E + p) with (Z.succ (Z.log2 a)) by lia.
    apply Z.log2_spec. lia. }
  cbv zeta.
  match goal with |- context [if ?c then ?x else ?y] => set (q' := if c then x else y) end.
  assert (Hq' : 0 <= q' <= 2 ^ p)
    by (subst q'; match goal with |- context [if ?c then _ else _] => destruct c end; lia).
  split; [|nia].
  destruct (Z.eq_dec q' (2 ^ p)) as [->|Hne].
  - exists (2 ^ (p - 1)), (E + 1).
    assert (Hhalf : 2 ^ p = 2 ^ (p - 1) * 2).
    { replace p with (p - 1 + 1) at 1 by lia. by rewrite Z.pow_add_r by lia. }
    assert (0 < 2 ^ (p - 1)) by (apply Z.pow_pos_nonneg; lia).
    split; [lia|]. split; [lia|].
    rewrite (Z.pow_add_r 2 E 1) by lia. rewrite Hhalf. ring.
  - exists q', E. split; [lia|]. split; [lia|reflexivity].
Qed.

Lemma float32_round_nat_exact (m e : Z) :
  0 <= e -> 0 <= m < 2 ^ 24 -> float32_round_nat (m * 2 ^ e) = m * 2 ^ e.
Proof. intros He Hm. apply round_nat_exact; [lia|exact He|exact Hm]. Qed.

Lemma float64_round_nat_exact (m e : Z) :
  0 <= e -> 0 <= m < 2 ^ 24 -> float64_round_nat (m * 2 ^ e) = m * 2 ^ e.
Proof.
  intros He Hm. apply round_nat_exact; [lia|exact He|].
  assert (2 ^ 24 < 2 ^ 53) by (apply Z.pow_lt_mono_r; lia). lia.
Qed.

(** A float32 value goes through the double and the float unchanged. *)
Lemma float_of_int_exact (z : Z) : float32_repr z -> float_of_int z = z.
Proof.
  intros (m & e & He & Hm & ->). unfold float_of_int.
  assert (Hpe : 0 < 2 ^ e) by (apply Z.pow_pos_nonneg; lia).
  assert (Habs : Z.abs (m * 2 ^ e) = Z.abs m * 2 ^ e).
  { rewrite Z.abs_mul. f_equal. lia. }
  rewrite Habs, float64_round_nat_exact, float32_round_nat_exact by lia.
  destruct (Z.ltb_spec (m * 2 ^ e) 0) as [Hneg|Hpos]; nia.
Qed.

Lemma float_of_int_repr (z : Z) : float32_repr (float_of_int z).
Proof.
  unfold float_of_int, float32_round_nat, float64_round_nat.
  destruct (round_nat_repr 53 (Z.abs z)) as [_ H53]; [lia|lia|].
  destruct (round_nat_repr 24 (round_nat 53 (Z.abs z)))
    as [(m & e & He & Hm & Heq) _]; [lia|exact H53|].
  rewrite Heq. destruct (z <? 0).
  - exists (- m), e. split; [exact He|]. split; [lia|ring].
  - exists m, e. split; [exact He|]. split; [lia|reflexivity].
Qed.

Lemma float_long_exact (z : Z) : float32_exact z -> float_long z = z.
Proof.
  intros [Hrepr Hrange]. unfold float_long, long_of_float.
  rewrite (float_of_int_exact _ Hrepr).
  destruct (Z.leb_spec (- 2 ^ 63) z); [|lia].
  destruct (Z.ltb_spec z (2 ^ 63)); [reflexivity|lia].
Qed.

Lemma float32_exact_small (z : Z) : Z.abs z < 2 ^ 24 -> float32_exact z.
Proof.
  intros Hz. split.
  - exists z, 0. split; [lia|]. split; [exact Hz|]. change (2 ^ 0) with 1. lia.
  - assert (2 ^ 24 < 2 ^ 63) by (apply Z.pow_lt_mono_r; lia). lia.
Qed.

Lemma float_long_is_exact (z : Z) : float32_exact (float_long z).
Proof.
  unfold float_long, long_of_float.
  destruct (Z.leb_spec (- 2 ^ 63) (float_of_int z)) as [Hlo|Hlo]; cbn [andb].
  - destruct (Z.ltb_spec (float_of_int z) (2 ^ 63)) as [Hhi|Hhi].
    + split; [apply float_of_int_repr|lia].
    + split; [|lia]. exists (- 1), 63. split; [lia|]. split; [reflexivity|ring].
  - split; [|lia]. exists (- 1), 63. split; [lia|]. split; [reflexivity|ring].
Qed.

(** The labels [__getitem__] can return are exactly the int64 values that
    float32 holds. *)
Lemma float32_exact_image (z : Z) :
  float32_exact z <-> exists speaker, float_long speaker = z.
Proof.
  split.
  - intros Hz. exists z. by apply float_long_exact.
  - intros [speaker <-]. apply float_long_is_exact.
Qed.

(** ** Segment sampling *)

Lemma py_slice_inside {A : Type} (l : list A) (start len : nat) :
  (start + len <= length l)%nat ->
  py_slice l (Z.of_nat start) (Z.of_nat start + Z.of_nat len) = take len (drop start l).
Proof.
  intros Hle. unfold py_slice, slice_bound.
  destruct (Z.ltb_spec (Z.of_nat start) 0) as [?|_]; [lia|].
  destruct (Z.ltb_spec (Z.of_nat start + Z.of_nat len) 0) as [?|_]; [lia|].
  rewrite !Z.min_l by lia.
  replace (Z.of_nat start + Z.of_nat len - Z.of_nat start) with (Z.of_nat len) by lia.
  by rewrite !Nat2Z.id.
Qed.

(** C3. For a feature array of length L and a segment length S >= 0,
    [__getitem__] returns a segment of length min(L, S): for L > S the
    contiguous frames [start, start + S) of the array for a start in
    [0, L - S], and for L <= S the array itself. *)
Theorem getitem_segment `{External} (ds : myDataset) (rng index : nat)
    (feat_path : string) (speaker : Z) (m : mel) :
  0 <= segment_len ds ->
  ds_data ds !! index = Some (feat_path, speaker) ->
  data_dir ds !! feat_path = Some m ->
  exists seg label,
    getitem ds rng index = Ok (seg, label) /\
    Z.of_nat (length seg) = Z.min (Z.of_nat (length m)) (segment_len ds) /\
    (segment_len ds < Z.of_nat (length m) ->
       exists start : nat,
         Z.of_nat start <= Z.of_nat (length m) - segment_len ds /\
         seg = take (Z.to_nat (segment_len ds)) (drop start m) /\
         forall k : nat, Z.of_nat k < segment_len ds ->
           seg !! k = m !! (start + k)%nat) /\
    (Z.of_nat (length m) <= segment_len ds -> seg = m).
Proof.
  intros HS Hrec Hfile. unfold getitem. rewrite Hrec. cbn beta iota. unfold mel in *. rewrite Hfile.
  destruct (Z.ltb_spec (segment_len ds) (Z.of_nat (length m))) as [Hlong|Hshort].
  - pose proof (randint_range rng 0 (Z.of_nat (length m) - segment_len ds)) as Hr.
    specialize (Hr ltac:(lia)).
    set (start := randint rng 0 (Z.of_nat (length m) - segment_len ds)) in *.
    assert (Hslice : py_slice m start (start + segment_len ds)
                     = take (Z.to_nat (segment_len ds)) (drop (Z.to_nat start) m)).
    { rewrite <- (Z2Nat.id start) at 1 2 by lia.
      rewrite <- (Z2Nat.id (segment_len ds)) at 1 by lia.
      apply py_slice_inside. lia. }
    eexists _, _. split; [reflexivity|]. rewrite Hslice.
    split; [|split].
    + rewrite length_take, length_drop. lia.
    + intros _. exists (Z.to_nat start). split; [lia|]. split; [reflexivity|].
      intros k Hk. rewrite lookup_take_lt by lia. by rewrite lookup_drop.
    + lia.
  - eexists _, _. split; [reflexivity|]. split; [lia|]. split; [lia|done].
Qed.

Lemma getitem_segment_witness :
  getitem (H := toy_external) (toy_dataset 2 1) 0 0
    = Ok ([toy_frame 1; toy_frame 2], 1)
  /\ exists seg label,
    getitem (H := toy_external) (toy_dataset 2 1) 0 0 = Ok (seg, label) /\
    Z.of_nat (length seg) = Z.min (Z.of_nat (length toy_mel)) 2 /\
    (2 < Z.of_nat (length toy_mel) ->
       exists start : nat,
         Z.of_nat start <= Z.of_nat (length toy_mel) - 2 /\
         seg = take (Z.to_nat 2) (drop start toy_mel) /\
         forall k : nat, Z.of_nat k < 2 -> seg !! k = toy_mel !! (start + k)%nat) /\
    (Z.of_nat (length toy_mel) <= 2 -> seg = toy_mel).
Proof.
  split; [reflexivity|].
  apply (getitem_segment (H := toy_external) (toy_dataset 2 1) 0 0 "uttr-a.pt" 1 toy_mel);
    [simpl; lia | reflexivity | reflexivity].
Defined.

(** ** Batch collation *)

Lemma max_len_ge (mels : list mel) (m : mel) :
  m ∈ mels -> (length m <= max_len mels)%nat.
Proof.
  induction mels as [|m' mels IH]; intros Hin.
  - by apply elem_of_nil in Hin.
  - apply elem_of_cons in Hin as [->|Hin]; simpl; [lia|].
    specialize (IH Hin). lia.
Qed.

Lemma max_len_attained (mels : list mel) :
  mels <> [] -> exists m, m ∈ mels /\ length m = max_len mels.
Proof.
  induction mels as [|m' mels IH]; [done|]. intros _.
  destruct mels as [|m'' mels].
  - exists m'. split; [left|]. simpl. lia.
  - destruct IH as (m & Hin & Hlen); [done|].
    destruct (Nat.max_spec (length m') (max_len (m'' :: mels))) as [[_ Hm]|[_ Hm]].
    + exists m. split; [by right|]. change (max_len (m' :: m'' :: mels))
        with (Nat.max (length m') (max_len (m'' :: mels))). lia.
    + exists m'. split; [left|]. change (max_len (m' :: m'' :: mels))
        with (Nat.max (length m') (max_len (m'' :: mels))). lia.
Qed.

Lemma pad_row_length (m : mel) (n : nat) :
  (length m <= n)%nat -> length (m ++ drop (length m) (replicate n padding_frame)) = n.
Proof. intros Hle. rewrite length_app, length_drop, length_replicate. lia. Qed.

Lemma pad_row_lookup (m : mel) (n k : nat) :
  (length m <= k < n)%nat ->
  (m ++ drop (length m) (replicate n padding_frame)) !! k = Some padding_frame.
Proof.
  intros Hk. rewrite lookup_app_r by lia. rewrite lookup_drop.
  apply lookup_replicate_2. lia.
Qed.

Lemma lookup_map {A B : Type} (f : A -> B) (l : list A) (i : nat) :
  map f l !! i = f <$> l !! i.
Proof. apply list_lookup_fmap. Qed.

Lemma map_float_long_exact (labels : list Z) :
  Forall float32_exact labels -> map float_long labels = labels.
Proof.
  induction 1 as [|z labels Hz _ IH]; [done|].
  simpl. by rewrite IH, float_long_exact.
Qed.

(** What [__getitem__] returns as a label has been through float32. *)
Lemma getitem_label_exact `{External} (ds : myDataset) (rng index : nat)
    (seg : mel) (label : Z) :
  getitem ds rng index = Ok (seg, label) -> float32_exact label.
Proof.
  unfold getitem.
  destruct (ds_data ds !! index) as [[feat_path speaker]|]; [|discriminate].
  destruct (data_dir ds !! feat_path) as [m|]; [|discriminate].
  intros [= _ <-]. apply float_long_is_exact.
Qed.

(** C4. For a non-empty list of (segment, label) pairs, each of them an item
    as [__getitem__] returns it, the batch has one row per pair, every row
    has the length of the longest segment, row i starts with segment i and
    holds the padding frame (40 entries of -20) from position l_i on, and the
    labels come out as they went in, in order and value. *)
Theorem collate_batch_padded `{External} (ds : myDataset) (batch : list (mel * Z)) :
  batch <> [] ->
  Forall (fun item => exists rng index, getitem ds rng index = Ok item) batch ->
  exists padded labels,
    collate_batch batch = Ok (padded, labels) /\
    length padded = length batch /\
    Forall (fun row => length row = max_len (map fst batch)) padded /\
    (forall m, m ∈ map fst batch -> (length m <= max_len (map fst batch))%nat) /\
    (exists m, m ∈ map fst batch /\ length m = max_len (map fst batch)) /\
    (forall (i : nat) (m : mel), map fst batch !! i = Some m ->
       exists row, padded !! i = Some row /\ take (length m) row = m /\
         forall k : nat, (length m <= k < max_len (map fst batch))%nat ->
           row !! k = Some (replicate 40 ((-20) # 1)%Q)) /\
    labels = map snd batch.
Proof.
  intros Hne Hitems.
  assert (Hexact : Forall float32_exact (map snd batch)).
  { apply Forall_map. eapply Forall_impl; [exact Hitems|].
    intros [seg label] (rng & index & Hget). cbn [snd].
    eapply getitem_label_exact, Hget. }
  exists (pad_sequence (map fst batch)), (map snd batch).
  split.
  { destruct batch; [done|]. unfold collate_batch.
    by rewrite (map_float_long_exact _ Hexact). }
  split; [unfold pad_sequence; by rewrite !length_map|].
  split.
  { unfold pad_sequence. apply Forall_map, Forall_forall. intros m Hin.
    simpl. apply pad_row_length, max_len_ge, Hin. }
  split; [apply max_len_ge|].
  split; [apply max_len_attained; by destruct batch|].
  split; [|done].
  intros i m Hi. eexists. split.
  { unfold pad_sequence. rewrite lookup_map. unfold mel in *. rewrite Hi. reflexivity. }
  split; [by rewrite take_app_length|].
  intros k Hk. by apply pad_row_lookup.
Qed.

Lemma collate_batch_padded_witness :
  getitem (H := toy_external) toy_dataset2 0 0 = Ok (toy_mel, 7) /\
  getitem (H := toy_external) toy_dataset2 1 1 = Ok ([toy_frame 4], 16777216) /\
  exists padded labels,
    collate_batch [(toy_mel, 7); ([toy_frame 4], 16777216)] = Ok (padded, labels) /\
    length padded = 2%nat /\
    Forall (fun row => length row = 3%nat) padded /\
    (forall m, m ∈ [toy_mel; [toy_frame 4]] -> (length m <= 3)%nat) /\
    (exists m, m ∈ [toy_mel; [toy_frame 4]] /\ length m = 3%nat) /\
    (forall (i : nat) (m : mel), [toy_mel; [toy_frame 4]] !! i = Some m ->
       exists row, padded !! i = Some row /\ take (length m) row = m /\
         forall k : nat, (length m <= k < 3)%nat ->
           row !! k = Some (replicate 40 ((-20) # 1)%Q)) /\
    labels = [7; 16777216].
Proof.
  assert (H0 : getitem (H := toy_external) toy_dataset2 0 0 = Ok (toy_mel, 7))
    by (vm_compute; reflexivity).
  assert (H1 : getitem (H := toy_external) toy_dataset2 1 1
               = Ok ([toy_frame 4], 16777216))
    by (vm_compute; reflexivity).
  split; [exact H0|]. split; [exact H1|].
  apply (collate_batch_padded (H := toy_external) toy_dataset2
           [(toy_mel, 7); ([toy_frame 4], 16777216)]); [discriminate|].
  constructor; [by exists 0%nat, 0%nat|].
  constructor; [by exists 1%nat, 1%nat|]. constructor.
Defined.

(** On a label that float32 does not hold, the conversion of [collate_batch]
    would round; [__getitem__] has made the same conversion before, so no
    such label reaches it. *)
Lemma collate_batch_rounds_label :
  exists batch padded labels,
    batch = [([toy_frame 1], 16777217)] /\
    collate_batch batch = Ok (padded, labels) /\
    labels = [16777216] /\
    labels <> map snd batch.
Proof.
  eexists _, _, _. split; [reflexivity|]. split; [reflexivity|].
  split; [vm_compute; reflexivity|]. discriminate.
Qed.

(** ** Learning-rate schedule *)

Lemma lr_lambda_warmup (ws ts : Z) (c : R) (step : Z) :
  (step < ws)%Z -> lr_lambda ws ts c step = (IZR step / IZR (Z.max 1 ws))%R.
Proof.
  intros Hlt. unfold lr_lambda.
  destruct (Z.ltb_spec step ws); [reflexivity|lia].
Qed.

Lemma lr_lambda_decay (ws ts : Z) (c : R) (step : Z) :
  (ws <= step)%Z ->
  lr_lambda ws ts c step
  = Rmax 0 (0.5 * (1 + cos (PI * c * 2
        * (IZR (step - ws) / IZR (Z.max 1 (ts - ws))))))%R.
Proof.
  intros Hge. unfold lr_lambda.
  destruct (Z.ltb_spec step ws); [lia|reflexivity].
Qed.

(** C2. With 0 < warmup_steps < total_steps, the multiplier is 0 at step 0,
    1 at step warmup_steps (the rate is the base rate) and 0 at step
    total_steps, and it is non-negative at every step of [0, total_steps]. *)
Theorem lr_schedule_endpoints (warmup_steps total_steps : Z) (base_lr : R) :
  (0 < warmup_steps)%Z -> (warmup_steps < total_steps)%Z ->
  lr_lambda warmup_steps total_steps 0.5 0 = 0%R /\
  scheduled_lr base_lr warmup_steps total_steps 0 = 0%R /\
  lr_lambda warmup_steps total_steps 0.5 warmup_steps = 1%R /\
  scheduled_lr base_lr warmup_steps total_steps warmup_steps = base_lr /\
  lr_lambda warmup_steps total_steps 0.5 total_steps = 0%R /\
  scheduled_lr base_lr warmup_steps total_steps total_steps = 0%R /\
  forall step : Z, (0 <= step <= total_steps)%Z ->
    (0 <= lr_lambda warmup_steps total_steps 0.5 step)%R.
Proof.
  intros Hws Hts.
  assert (H0 : lr_lambda warmup_steps total_steps 0.5 0 = 0%R).
  { rewrite lr_lambda_warmup by lia. unfold Rdiv. apply Rmult_0_l. }
  assert (H1 : lr_lambda warmup_steps total_steps 0.5 warmup_steps = 1%R).
  { rewrite lr_lambda_decay by lia. rewrite Z.sub_diag.
    unfold Rdiv at 1. rewrite Rmult_0_l, Rmult_0_r, cos_0.
    rewrite Rmax_right; lra. }
  assert (H2 : lr_lambda warmup_steps total_steps 0.5 total_steps = 0%R).
  { rewrite lr_lambda_decay by lia. rewrite Z.max_r by lia.
    assert (Hd : IZR (total_steps - warmup_steps) <> 0%R).
    { apply not_0_IZR. lia. }
    unfold Rdiv at 1. rewrite Rinv_r by exact Hd.
    replace (PI * 0.5 * 2 * 1)%R with PI by lra.
    rewrite cos_PI. rewrite Rmax_left; lra. }
  unfold scheduled_lr. rewrite H0, H1, H2.
  repeat split; try lra.
  intros step [Hlo Hhi].
  destruct (Z_lt_le_dec step warmup_steps) as [Hlt|Hge].
  - rewrite lr_lambda_warmup by exact Hlt. rewrite Z.max_r by lia.
    apply Rmult_le_pos; [apply IZR_le; lia|].
    apply Rlt_le, Rinv_0_lt_compat, IZR_lt. lia.
  - rewrite lr_lambda_decay by exact Hge. apply Rmax_l.
Qed.

Lemma lr_schedule_endpoints_witness :
  (0 < 10000)%Z /\ (10000 < 10000000)%Z /\
  lr_lambda 10000 10000000 0.5 0 = 0%R /\
  scheduled_lr 0.00001 10000 10000000 10000 = 0.00001%R /\
  lr_lambda 10000 10000000 0.5 10000000 = 0%R.
Proof.
  assert (Ha : (0 < 10000)%Z) by lia.
  assert (Hb : (10000 < 10000000)%Z) by lia.
  pose proof (lr_schedule_endpoints 10000 10000000 0.00001 Ha Hb)
    as (H0 & _ & _ & H1 & H2 & _).
  exact (conj Ha (conj Hb (conj H0 (conj H1 H2)))).
Defined.

(** ** Shapes of the forward pass *)

Lemma shape_linear3 (h : heap) (l : Linear) (x : tensor) :
  shape (linear3 h l x) = [dim x 0; dim x 1; dim (h !!! weight l) 0].
Proof. reflexivity. Qed.

Lemma shape_transpose01 (x : tensor) :
  shape (transpose01 x) = [dim x 1; dim x 0; dim x 2].
Proof. reflexivity. Qed.

Lemma shape_mean_dim1 (x : tensor) : shape (mean_dim1 x) = [dim x 0; dim x 2].
Proof. reflexivity. Qed.

Lemma dim_conformer_forward `{External} (b : bool) (ts : list tensor) (x : tensor) (i : nat) :
  dim (conformer_forward b ts x) i = dim x i.
Proof. unfold dim. by rewrite conformer_forward_shape. Qed.

Lemma length_linear_rows (h : heap) (l : Linear) (x : tensor) :
  length (linear_rows h l x) = dim x 0.
Proof. unfold linear_rows. by rewrite length_map, length_seq. Qed.

Lemma linear_rows_width (h : heap) (l : Linear) (x : tensor) :
  Forall (fun row => length row = dim (h !!! weight l) 0) (linear_rows h l x).
Proof.
  unfold linear_rows. apply Forall_map, Forall_forall. intros i _.
  simpl. by rewrite length_map, length_seq.
Qed.

(** One row of logits per item of the batch, each as wide as the weight of
    the prediction layer has rows. *)
Lemma length_forward `{External} (h : heap) (m : Classifier) (mels : tensor) :
  length (forward h m mels) = dim mels 0.
Proof.
  unfold forward. rewrite length_linear_rows.
  unfold mean_dim1, build2, dim at 1. simpl.
  unfold transpose01 at 1, build3, dim at 1. simpl.
  rewrite dim_conformer_forward. reflexivity.
Qed.

Lemma forward_width `{External} (h : heap) (m : Classifier) (mels : tensor) :
  Forall (fun row => length row = dim (h !!! weight (pred_layer m)) 0)
         (forward h m mels).
Proof. unfold forward. apply linear_rows_width. Qed.

Lemma argmax_from_bound (row : list Q) (best : nat) (best_val : Q) (i : nat) :
  (best < i)%nat -> (argmax_from best best_val i row < i + length row)%nat.
Proof.
  revert best best_val i.
  induction row as [|x row IH]; intros best best_val i Hlt; simpl; [lia|].
  destruct (Qlt_le_dec best_val x).
  - specialize (IH i x (S i)). lia.
  - specialize (IH best best_val (S i)). lia.
Qed.

Lemma argmax_bound (row : list Q) : row <> [] -> (argmax row < length row)%nat.
Proof.
  destruct row as [|x row]; [done|]. intros _. simpl.
  pose proof (argmax_from_bound row 0 x 1). lia.
Qed.

Lemma lookup_total_snoc2 (h : heap) (a b : tensor) :
  ((h ++ [a]) ++ [b]) !!! length h = a.
Proof.
  apply list_lookup_total_correct.
  rewrite lookup_app_l by (rewrite length_app; simpl; lia).
  rewrite lookup_app_r by lia. by rewrite Nat.sub_diag.
Qed.

Lemma nn_Linear_weight `{External} (name : string) (i o : nat) (h : heap) :
  shape ((nn_Linear name i o h).1 !!! weight (nn_Linear name i o h).2) = [o; i].
Proof.
  unfold nn_Linear, alloc. cbn [fst snd weight].
  by rewrite lookup_total_snoc2.
Qed.

Lemma Classifier_init_pred_weight `{External} (d_model n_spks : nat) (dropout : Q) (h0 : heap) :
  shape ((Classifier_init d_model n_spks dropout h0).1
           !!! weight (pred_layer (Classifier_init d_model n_spks dropout h0).2))
  = [600%nat; d_model].
Proof.
  unfold Classifier_init.
  destruct (nn_Linear "prenet" n_mels d_model h0) as [h1 pre].
  destruct (alloc_named h1 (conformer_tensors d_model)) as [h2 conf].
  pose proof (nn_Linear_weight "pred_layer.0" d_model 600 h2) as Hw.
  destruct (nn_Linear "pred_layer.0" d_model 600 h2) as [h3 pred].
  exact Hw.
Qed.

(** C10. Whatever [n_spks] the constructor is given, the module it builds
    is the same, and its forward pass returns one row of exactly 600 logits
    per item of the batch, so the arg-max of a row lies in [0, 600). *)
Theorem classifier_head_600 `{External} (d_model n_spks : nat) (dropout : Q)
    (h0 : heap) (mode : bool) (mels : tensor) :
  (forall n_spks' : nat,
     Classifier_init d_model n_spks dropout h0
     = Classifier_init d_model n_spks' dropout h0) /\
  length (forward (Classifier_init d_model n_spks dropout h0).1
            (set_training (Classifier_init d_model n_spks dropout h0).2 mode) mels)
  = dim mels 0 /\
  Forall (fun row => length row = 600%nat /\ (argmax row < 600)%nat)
    (forward (Classifier_init d_model n_spks dropout h0).1
       (set_training (Classifier_init d_model n_spks dropout h0).2 mode) mels).
Proof.
  split; [reflexivity|]. split; [apply length_forward|].
  eapply Forall_impl; [apply forward_width|].
  intros row Hrow. cbn beta in Hrow.
  change (pred_layer (set_training ?m mode)) with (pred_layer m) in Hrow.
  rewrite Hrow. unfold dim. rewrite Classifier_init_pred_weight. simpl.
  split; [reflexivity|].
  assert (Hlen : length row = 600%nat).
  { rewrite Hrow. unfold dim. by rewrite Classifier_init_pred_weight. }
  rewrite <- Hlen. apply argmax_bound. intros ->. discriminate.
Qed.

(** ** Inference *)

Ltac plain_types := cbv delta [mel frame] in *.

Lemma batch_of_one (n k : nat) :
  (k < n)%nat -> take 1 (drop (k * 1) (seq 0 n)) = [k].
Proof.
  intros Hk. rewrite Nat.mul_1_r.
  replace n with (k + (n - k))%nat by lia.
  rewrite seq_app, drop_app_length' by (by rewrite length_seq).
  destruct (n - k)%nat eqn:E; [lia|]. reflexivity.
Qed.

Lemma iter_batch_size_one `{External} {D : Type} (d : D) (n : nat) :
  iter {| dataset := d; dataset_len := n; batch_size := 1;
          shuffle := false; drop_last := false |} 0
  = map (fun k => [k]) (seq 0 n).
Proof.
  unfold iter, sampler, batch_sampler, loader_len. cbn [shuffle drop_last batch_size dataset_len].
  replace (n + 1 - 1)%nat with n by lia. rewrite Nat.div_1_r.
  apply map_ext_in. intros k Hk. apply in_seq in Hk. apply batch_of_one. lia.
Qed.

Lemma forward_single `{External} (h : heap) (m : Classifier) (whole : mel) :
  forward h m (tensor_of_batch [whole])
  = [hd [] (forward h m (tensor_of_batch [whole]))].
Proof.
  pose proof (length_forward h m (tensor_of_batch [whole])) as Hlen.
  change (dim (tensor_of_batch [whole]) 0) with 1%nat in Hlen.
  destruct (forward h m (tensor_of_batch [whole])) as [|row [|row' rows]];
    simpl in Hlen; try lia. reflexivity.
Qed.

Lemma append_rows_one (id2speaker : gmap string string)
    (results : list (list string)) (feat_path : string) (pred : nat) :
  append_rows id2speaker results [(feat_path, pred)]
  = match id2speaker !! pretty pred with
    | None => Raise KeyError
    | Some name => Ok (results ++ [[feat_path; name]])
    end.
Proof. simpl. by destruct (id2speaker !! pretty pred). Qed.

(** One pass of the loop body is one row of the table. *)
Lemma inference_step `{External} (ds : InferenceDataset)
    (id2speaker : gmap string string) (h : heap) (m : Classifier)
    (results : list (list string)) (k : nat) (feat_path : string)
    (it : list (list nat)) :
  training m = false ->
  inf_data ds !! k = Some feat_path ->
  inference_loop ds id2speaker h m results ([k] :: it)
  = (row ← inference_row ds id2speaker h m feat_path;
     inference_loop ds id2speaker h m (results ++ [row]) it).
Proof.
  intros Heval Hk. cbn [inference_loop].
  unfold inference_fetch, inference_row. cbn [mapM].
  unfold inference_getitem. rewrite Hk.
  plain_types.
  match goal with |- context [@lookup ?K ?V ?M ?L feat_path ?d] =>
    destruct (@lookup K V M L feat_path d) as [whole|] end; [|reflexivity].
  cbn [mbind result_bind mret result_ret inference_collate_batch map fst snd forallb].
  rewrite Nat.eqb_refl. cbn [andb].
  unfold call_model. rewrite Heval. cbn [mbind result_bind].
  rewrite forward_single. cbn [map zip zip_with hd].
  rewrite append_rows_one.
  destruct (id2speaker !! pretty (argmax _)); reflexivity.
Qed.

Lemma inference_loop_rows `{External} (ds : InferenceDataset)
    (id2speaker : gmap string string) (h : heap) (m : Classifier) (n k : nat)
    (results : list (list string)) :
  training m = false ->
  (k + n = length (inf_data ds))%nat ->
  inference_loop ds id2speaker h m results (map (fun i => [i]) (seq k n))
  = (rows ← mapM (inference_row ds id2speaker h m) (drop k (inf_data ds));
     Ok (results ++ rows)).
Proof.
  intros Heval. revert k results.
  induction n as [|n IH]; intros k results Hlen.
  - rewrite drop_ge by lia. simpl. by rewrite app_nil_r.
  - destruct (lookup_lt_is_Some_2 (inf_data ds) k ltac:(lia)) as [feat_path Hk].
    rewrite (drop_S _ _ _ Hk). cbn [seq map].
    rewrite (inference_step _ _ _ _ _ _ _ _ Heval Hk). cbn [mapM].
    destruct (inference_row ds id2speaker h m feat_path) as [row|e]; [|reflexivity].
    cbn [mbind result_bind].
    rewrite IH by lia.
    destruct (mapM _ (drop (S k) (inf_data ds))) as [rows|e]; [|reflexivity].
    cbn [mbind result_bind mret result_ret]. by rewrite <- app_assoc.
Qed.

Lemma mapM_Ok_Forall2 {A B : Type} (f : A -> result B) (l : list A) (ys : list B) :
  mapM f l = Ok ys -> Forall2 (fun x y => f x = Ok y) l ys.
Proof.
  revert ys. induction l as [|x l IH]; intros ys Hm; simpl in Hm.
  - injection Hm as <-. constructor.
  - destruct (f x) as [y|e] eqn:Hx; [|discriminate]. cbn in Hm.
    destruct (mapM f l) as [ys'|e]; [|discriminate]. cbn in Hm.
    injection Hm as <-. constructor; [exact Hx|by apply IH].
Qed.

(** C9. The inference entry point computes the table of the specification:
    the header row, then one row per utterance in the order of the inference
    set, holding the feature path and the speaker name of the arg-max logit
    of the encoder run on the utterance's whole feature array.  An utterance
    whose file is missing, or an arg-max with no entry in the mapping, aborts
    the run. *)
Theorem inference_results_table `{External} (ds : InferenceDataset)
    (id2speaker : gmap string string) (files : gmap string checkpoint)
    (model_path : string) :
  inference_main ds id2speaker files model_path
  = (c ← torch_load files model_path;
     h ← load_state_dict (Classifier_init 320 (size id2speaker) (4 # 10) []).1
           (Classifier_init 320 (size id2speaker) (4 # 10) []).2 c;
     results_table ds id2speaker h
       (set_training (Classifier_init 320 (size id2speaker) (4 # 10) []).2 false))
  /\ forall table : list (list string),
       inference_main ds id2speaker files model_path = Ok table ->
       exists (h : heap) (rows : list (list string)),
         table = ["Id"; "Category"]%string :: rows /\
         length rows = length (inf_data ds) /\
         forall (i : nat) (feat_path : string),
           inf_data ds !! i = Some feat_path ->
           exists (whole : mel) (name : string),
             inf_dir ds !! feat_path = Some whole /\
             id2speaker !! pretty (argmax (hd [] (forward h
                 (set_training (Classifier_init 320 (size id2speaker) (4 # 10) []).2 false)
                 (tensor_of_batch [whole])))) = Some name /\
             rows !! i = Some [feat_path; name].
Proof.
  unfold inference_main.
  generalize (Classifier_init 320 (size id2speaker) (4 # 10) []).
  intros [h0 m0]. cbn [fst snd].
  assert (Heq : (c ← torch_load files model_path;
       h ← load_state_dict h0 m0 c;
       inference_loop ds id2speaker h (set_training m0 false)
         [["Id"; "Category"]%string]
         (iter {| dataset := ds; dataset_len := length (inf_data ds);
                  batch_size := 1; shuffle := false; drop_last := false |} 0))
    = (c ← torch_load files model_path;
       h ← load_state_dict h0 m0 c;
       results_table ds id2speaker h (set_training m0 false))).
  { destruct (torch_load files model_path) as [c|e]; [|reflexivity]. cbn [mbind result_bind].
    destruct (load_state_dict h0 m0 c) as [h|e]; [|reflexivity]. cbn [mbind result_bind].
    rewrite iter_batch_size_one.
    rewrite (inference_loop_rows ds id2speaker h (set_training m0 false)
               (length (inf_data ds)) 0) by (reflexivity || lia).
    rewrite drop_0. reflexivity. }
  split; [exact Heq|].
  intros table Htable. rewrite Heq in Htable.
  destruct (torch_load files model_path) as [c|e]; [|discriminate].
  cbn [mbind result_bind] in Htable.
  destruct (load_state_dict h0 m0 c) as [h|e]; [|discriminate].
  cbn [mbind result_bind] in Htable.
  unfold results_table in Htable.
  destruct (mapM _ (inf_data ds)) as [rows|e] eqn:Hrows; [|discriminate].
  cbn [mbind result_bind] in Htable. injection Htable as <-.
  apply mapM_Ok_Forall2 in Hrows.
  exists h, rows. split; [reflexivity|].
  split; [symmetry; eapply Forall2_length, Hrows|].
  intros i feat_path Hi.
  destruct (Forall2_lookup_l _ _ _ _ _ Hrows Hi) as (row & Hrow & Hf).
  unfold inference_row in Hf. plain_types.
  match type of Hf with context [@lookup ?K ?V ?M ?L feat_path ?d] =>
    destruct (@lookup K V M L feat_path d) as [whole|] end; [|discriminate].
  destruct (id2speaker !! pretty _) as [name|] eqn:Hname; [|discriminate].
  injection Hf as <-. eauto.
Qed.

(** ** Validation *)

Lemma call_model_eval `{External} (h : heap) (m : Classifier) (mels : tensor) :
  training m = false -> (call_model h m mels).2 = h.
Proof. intros Heval. unfold call_model. by rewrite Heval. Qed.

(** What [model_fn] returns when it returns, and what it raises. *)
Lemma model_fn_Ok `{External} (batch : list mel * list Z) (h : heap) (m : Classifier)
    (loss accuracy : Q) (h' : heap) :
  model_fn batch h m = Ok ((loss, accuracy), h') ->
  h' = (call_model h m (tensor_of_batch batch.1)).2 /\
  accuracy = batch_accuracy
               (map argmax (call_model h m (tensor_of_batch batch.1)).1) batch.2 /\
  forallb (target_ok (dim (h !!! weight (pred_layer m)) 0)) batch.2 = true.
Proof.
  unfold model_fn, criterion. destruct batch as [mels labels]. cbn [fst snd].
  destruct (call_model h m (tensor_of_batch mels)) as [outs h1]. cbn [fst snd].
  destruct (forallb _ labels); [|discriminate].
  cbn [mbind result_bind]. by intros [= _ <- <-].
Qed.

Lemma model_fn_raises `{External} (batch : list mel * list Z) (h : heap) (m : Classifier)
    (e : exn) :
  model_fn batch h m = Raise e -> e = IndexError.
Proof.
  unfold model_fn, criterion. destruct batch as [mels labels].
  destruct (call_model h m (tensor_of_batch mels)) as [outs h1].
  destruct (forallb _ labels); [discriminate|].
  cbn [mbind result_bind]. by intros [= <-].
Qed.

Lemma model_fn_eval `{External} (batch : list mel * list Z) (h : heap) (m : Classifier)
    (la : Q * Q) (h' : heap) :
  training m = false -> model_fn batch h m = Ok (la, h') -> h' = h.
Proof.
  intros Heval Hfn. destruct la as [loss accuracy].
  apply model_fn_Ok in Hfn as (-> & _). by apply call_model_eval.
Qed.

(** In evaluation mode the loop over the validation batches writes nothing. *)
Lemma valid_loop_frame `{External} (s : Subset) (it : list (list nat))
    (acc : Q) (h : heap) (m : Classifier) (rng : nat) (acc' : Q) (h' : heap) (rng' : nat) :
  training m = false ->
  valid_loop s it acc h m rng = Ok (acc', h', rng') -> h' = h.
Proof.
  intros Heval. revert acc rng.
  induction it as [|indices it IH]; intros acc rng Hloop; simpl in Hloop.
  - by injection Hloop as _ <- _.
  - destruct (fetch s rng indices) as [batch|e]; [|discriminate].
    cbn [mbind result_bind] in Hloop.
    destruct (model_fn batch h m) as [[[loss accuracy] h1]|e] eqn:Hfn; [|discriminate].
    cbn [mbind result_bind] in Hloop.
    apply (model_fn_eval _ _ _ _ _ Heval) in Hfn. subst h1.
    eapply IH, Hloop.
Qed.

Lemma valid_frame `{External} (dl : DataLoader Subset) (h : heap) (m : Classifier)
    (rng : nat) (acc : Q) (h' : heap) (m' : Classifier) (rng' : nat) :
  valid dl h m rng = Ok (acc, (h', m', rng')) ->
  h' = h /\ m' = set_training m true.
Proof.
  unfold valid. intros Hv.
  destruct (valid_loop (dataset dl) (iter dl 0) 0%Q h (set_training m false) rng)
    as [[[acc1 h1] rng1]|e] eqn:Hloop; [|discriminate].
  cbn [mbind result_bind] in Hv.
  apply valid_loop_frame in Hloop; [|reflexivity]. subst h1.
  destruct (loader_len dl =? 0)%nat; [discriminate|].
  injection Hv as _ <- <- _. split; reflexivity.
Qed.

Lemma set_training_same (m : Classifier) : set_training m (training m) = m.
Proof. by destruct m. Qed.

(** ** The training step *)

Lemma Qltb_lt (x y : Q) : Qltb x y = true -> (x < y)%Q.
Proof.
  unfold Qltb. intros Hb. apply negb_true_iff in Hb.
  apply Qnot_le_lt. intros Hle. apply Qle_bool_iff in Hle. congruence.
Qed.

Lemma state_dict_set_training (m : Classifier) (b : bool) :
  state_dict (set_training m b) = state_dict m.
Proof. reflexivity. Qed.

(** What the validation block can do to the state it is given. *)
Lemma validation_block_inv `{External} (cfg : config) (vl : DataLoader Subset)
    (step : Z) (h : heap) (m : Classifier) (rng : nat) (best : Q)
    (sd : option (list (string * loc)))
    (h' : heap) (m' : Classifier) (rng' : nat) (best' : Q)
    (sd' : option (list (string * loc))) :
  validation_block cfg vl step h m rng best sd = Ok (h', m', rng', best', sd') ->
  h' = h /\
  (m' = m \/ ((step + 1) mod valid_steps cfg = 0 /\ m' = set_training m true)) /\
  ((best' = best /\ sd' = sd) \/
   ((step + 1) mod valid_steps cfg = 0 /\ (best < best')%Q
    /\ sd' = Some (state_dict m))).
Proof.
  unfold validation_block. intros Hv.
  destruct (valid_steps cfg =? 0); [discriminate|].
  destruct (Z.eqb_spec ((step + 1) mod valid_steps cfg) 0) as [Hfire|Hskip].
  - destruct (valid vl h m rng) as [[acc [[h1 m1] rng1]]|e] eqn:Hvalid; [|discriminate].
    cbn [mbind result_bind] in Hv.
    apply valid_frame in Hvalid as [-> ->].
    destruct (Qltb best acc) eqn:Hlt; injection Hv as <- <- <- <- <-.
    + split; [done|]. split; [by right|]. right.
      split; [done|]. split; [by apply Qltb_lt|done].
    + split; [done|]. split; [by right|]. by left.
  - injection Hv as <- <- <- <- <-. split; [done|]. split; by left.
Qed.

(** What the save block does. *)
Lemma save_block_inv (cfg : config) (step : Z) (h : heap)
    (sd : option (list (string * loc)))
    (files files' : gmap string checkpoint) (saved saved' : list (string * checkpoint)) :
  save_block cfg step h sd files saved = Ok (files', saved') ->
  ((step + 1) mod save_steps cfg = 0 /\
   exists d, sd = Some d /\
     files' = <[archive_path step := deref h d]> (<[save_path cfg := deref h d]> files) /\
     saved' = saved ++ [(save_path cfg, deref h d); (archive_path step, deref h d)])
  \/
  (((step + 1) mod save_steps cfg <> 0 \/ sd = None) /\
   files' = files /\ saved' = saved).
Proof.
  unfold save_block. intros Hs.
  destruct (save_steps cfg =? 0); [discriminate|].
  destruct (Z.eqb_spec ((step + 1) mod save_steps cfg) 0) as [Hfire|Hskip].
  - destruct sd as [d|]; injection Hs as <- <-.
    + left. split; [done|]. by exists d.
    + right. split; [by right|done].
  - assert (Hs' : Ok (files, saved) = Ok (files', saved')) by (by destruct sd).
    injection Hs' as <- <-. right. split; [by left|done].
Qed.

(** The blocks of a step that returns. *)
Lemma train_step_inv `{External} (cfg : config) (tl vl : DataLoader Subset)
    (step : Z) (st st' : train_state) :
  train_step cfg tl vl step st = Ok st' ->
  exists batch it passes rng',
    next_batch tl (st_rng st) (st_passes st) (train_iterator st)
      = Ok (batch, it, passes) /\
    validation_block cfg vl step
      (update_block batch (st_heap st) (st_model st) (st_last_epoch st)
         (st_optimizer st)).1
      (st_model st) (st_rng st + batch_size tl)%nat
      (best_accuracy st) (best_state_dict st)
      = Ok (st_heap st', st_model st', rng', best_accuracy st', best_state_dict st') /\
    save_block cfg step (st_heap st') (best_state_dict st') (st_files st) (st_saved st)
      = Ok (st_files st', st_saved st') /\
    st_last_epoch st' = st_last_epoch st + 1.
Proof.
  unfold train_step. intros Hstep.
  destruct (next_batch tl (st_rng st) (st_passes st) (train_iterator st))
    as [[[batch it] passes]|e] eqn:Hnext; [|discriminate].
  cbn [mbind result_bind] in Hstep.
  destruct (model_fn batch (st_heap st) (st_model st)) as [[[loss a] h0]|e] eqn:Hfn;
    [|discriminate].
  cbn [mbind result_bind] in Hstep.
  apply model_fn_Ok in Hfn as (Hh0 & _).
  assert (Hupd0 : optimizer_block batch h0 (st_model st) (st_last_epoch st)
                    (st_optimizer st)
                  = update_block batch (st_heap st) (st_model st) (st_last_epoch st)
                      (st_optimizer st)) by (unfold update_block; by rewrite Hh0).
  rewrite Hupd0 in Hstep. clear Hupd0 Hh0 h0.
  destruct (update_block batch (st_heap st) (st_model st) (st_last_epoch st)
              (st_optimizer st)) as [h opt] eqn:Hupd.
  destruct (validation_block cfg vl step h (st_model st)
              (st_rng st + batch_size tl)%nat (best_accuracy st) (best_state_dict st))
    as [[[[[h1 m1] rng1] best1] sd1]|e] eqn:Hval; [|discriminate].
  cbn [mbind result_bind] in Hstep.
  destruct (save_block cfg step h1 sd1 (st_files st) (st_saved st))
    as [[files saved]|e] eqn:Hsave; [|discriminate].
  cbn [mbind result_bind] in Hstep. injection Hstep as <-.
  exists batch, it, passes, rng1. cbn [st_heap st_model best_accuracy best_state_dict st_files st_saved st_last_epoch].
  rewrite ?Hupd. cbn [fst]. done.

Qed.

(** ** Best accuracy *)

Lemma train_step_best `{External} (cfg : config) (tl vl : DataLoader Subset)
    (step : Z) (st st' : train_state) :
  train_step cfg tl vl step st = Ok st' ->
  (best_accuracy st' = best_accuracy st /\ best_state_dict st' = best_state_dict st)
  \/ ((step + 1) mod valid_steps cfg = 0
      /\ (best_accuracy st < best_accuracy st')%Q
      /\ best_state_dict st' = Some (state_dict (st_model st))).
Proof.
  intros Hstep.
  apply train_step_inv in Hstep as (batch & it & passes & rng' & _ & Hval & _).
  apply validation_block_inv in Hval as (_ & _ & Hbest). exact Hbest.
Qed.

Lemma train_step_best_le `{External} (cfg : config) (tl vl : DataLoader Subset)
    (step : Z) (st st' : train_state) :
  train_step cfg tl vl step st = Ok st' ->
  (best_accuracy st <= best_accuracy st')%Q.
Proof.
  intros Hstep. destruct (train_step_best _ _ _ _ _ _ Hstep) as [[-> _]|(_ & Hlt & _)].
  - apply Qle_refl.
  - by apply Qlt_le_weak.
Qed.

Lemma train_loop_S `{External} (cfg : config) (tl vl : DataLoader Subset)
    (n : nat) (st0 st' : train_state) :
  train_loop cfg tl vl (S n) st0 = Ok st' ->
  exists st, train_loop cfg tl vl n st0 = Ok st
             /\ train_step cfg tl vl (Z.of_nat n) st = Ok st'.
Proof.
  cbn [train_loop]. intros Hl.
  destruct (train_loop cfg tl vl n st0) as [st|e]; [|discriminate].
  by exists st.
Qed.

(** The best accuracy at any point of a run is at least the one the run
    started with. *)
Lemma train_loop_best_le `{External} (cfg : config) (tl vl : DataLoader Subset)
    (n : nat) (st0 st : train_state) :
  train_loop cfg tl vl n st0 = Ok st ->
  (best_accuracy st0 <= best_accuracy st)%Q.
Proof.
  revert st. induction n as [|n IH]; intros st Hloop.
  - injection Hloop as <-. apply Qle_refl.
  - apply train_loop_S in Hloop as (st1 & Hst1 & Hstep).
    eapply Qle_trans; [apply IH, Hst1|]. eapply train_step_best_le, Hstep.
Qed.

(** C5. Along a training run the recorded best accuracy never decreases:
    the value after any later step is at least the value after any earlier
    one, so in particular across successive validations. *)
Theorem best_accuracy_monotone `{External} (cfg : config)
    (tl vl : DataLoader Subset) (n k : nat) (st0 st1 st2 : train_state) :
  train_loop cfg tl vl n st0 = Ok st1 ->
  train_loop cfg tl vl (n + k) st0 = Ok st2 ->
  (best_accuracy st1 <= best_accuracy st2)%Q.
Proof.
  intros H1. revert st2. induction k as [|k IH]; intros st2 H2.
  - rewrite Nat.add_0_r, H1 in H2. injection H2 as <-. apply Qle_refl.
  - rewrite Nat.add_succ_r in H2.
    apply train_loop_S in H2 as (st & Hst & Hstep).
    eapply Qle_trans; [apply IH, Hst|]. eapply train_step_best_le, Hstep.
Qed.

Lemma best_accuracy_monotone_witness :
  train_loop (H := toy_external) toy_config (toy_loader 2 1 true)
    (toy_loader 2 1 false) 1 toy_state = Ok (toy_after 1) /\
  train_loop (H := toy_external) toy_config (toy_loader 2 1 true)
    (toy_loader 2 1 false) (1 + 1) toy_state = Ok (toy_after 2) /\
  (best_accuracy (toy_after 1) <= best_accuracy (toy_after 2))%Q.
Proof.
  assert (H1 : train_loop (H := toy_external) toy_config (toy_loader 2 1 true)
                 (toy_loader 2 1 false) 1 toy_state = Ok (toy_after 1))
    by (vm_compute; reflexivity).
  assert (H2 : train_loop (H := toy_external) toy_config (toy_loader 2 1 true)
                 (toy_loader 2 1 false) (1 + 1) toy_state = Ok (toy_after 2))
    by (vm_compute; reflexivity).
  exact (conj H1 (conj H2 (best_accuracy_monotone (H := toy_external) _ _ _ _ _ _ _ _ H1 H2))).
Defined.

(** ** Checkpoint persistence *)

(** While no best checkpoint exists nothing has been saved, and once one
    exists some validation has beaten the accuracy the run started with. *)
Lemma train_loop_saved_inv `{External} (cfg : config) (tl vl : DataLoader Subset)
    (n : nat) (st0 st : train_state) :
  st_saved st0 = [] -> best_state_dict st0 = None ->
  train_loop cfg tl vl n st0 = Ok st ->
  (best_state_dict st = None -> st_saved st = [] /\ st_files st = st_files st0) /\
  (is_Some (best_state_dict st) -> (best_accuracy st0 < best_accuracy st)%Q).
Proof.
  intros Hsaved0 Hbest0. revert st.
  induction n as [|n IH]; intros st Hloop.
  - injection Hloop as <-. split; [done|]. rewrite Hbest0. by intros [? ?].
  - apply train_loop_S in Hloop as (st1 & Hst1 & Hstep).
    destruct (IH st1 Hst1) as [IHnone IHsome].
    pose proof (train_loop_best_le cfg tl vl n st0 st1 Hst1) as Hmono.
    pose proof (train_step_best _ _ _ _ _ _ Hstep) as Hbest.
    apply train_step_inv in Hstep as (batch & it & passes & rng' & _ & _ & Hsave & _).
    apply save_block_inv in Hsave.
    split.
    + intros Hnone.
      destruct Hbest as [[_ Hsd]|(_ & _ & Hsd)]; [|congruence].
      rewrite Hnone in Hsd. symmetry in Hsd. destruct (IHnone Hsd) as [Hs Hf].
      destruct Hsave as [(_ & d & Hd & _)|(_ & -> & ->)]; [congruence|done].
    + intros Hsome.
      destruct Hbest as [[-> Hsd]|(_ & Hlt & _)].
      * rewrite Hsd in Hsome. by apply IHsome.
      * eapply Qle_lt_trans; [exact Hmono|exact Hlt].
Qed.

(** C7. At step [n] of a run that began with no best checkpoint and nothing
    saved: the step saves exactly when n + 1 is a multiple of save_steps and
    a best checkpoint exists, and then it writes the best checkpoint to
    save_path and to ./ckpt/(n+1).ckpt, in this order and nothing else;
    otherwise it writes nothing.  As long as no best checkpoint exists
    nothing has been written, and a best checkpoint exists only after a
    validation beat the initial best accuracy. *)
Theorem checkpoint_persistence `{External} (cfg : config)
    (tl vl : DataLoader Subset) (n : nat) (st0 st st' : train_state) :
  st_saved st0 = [] -> best_state_dict st0 = None ->
  train_loop cfg tl vl n st0 = Ok st ->
  train_step cfg tl vl (Z.of_nat n) st = Ok st' ->
  (((Z.of_nat n + 1) mod save_steps cfg = 0 /\
    exists sd, best_state_dict st' = Some sd /\
      st_saved st' = st_saved st
        ++ [(save_path cfg, deref (st_heap st') sd);
            (archive_path (Z.of_nat n), deref (st_heap st') sd)] /\
      st_files st' = <[archive_path (Z.of_nat n) := deref (st_heap st') sd]>
                       (<[save_path cfg := deref (st_heap st') sd]> (st_files st)))
   \/
   (((Z.of_nat n + 1) mod save_steps cfg <> 0 \/ best_state_dict st' = None) /\
    st_saved st' = st_saved st /\ st_files st' = st_files st)) /\
  (best_state_dict st = None -> st_saved st = [] /\ st_files st = st_files st0) /\
  (best_state_dict st' = None -> st_saved st' = [] /\ st_files st' = st_files st0) /\
  (is_Some (best_state_dict st') -> (best_accuracy st0 < best_accuracy st')%Q).
Proof.
  intros Hsaved0 Hbest0 Hloop Hstep.
  assert (Hloop' : train_loop cfg tl vl (S n) st0 = Ok st').
  { cbn [train_loop]. by rewrite Hloop. }
  destruct (train_loop_saved_inv cfg tl vl n st0 st Hsaved0 Hbest0 Hloop) as [Hn _].
  destruct (train_loop_saved_inv cfg tl vl (S n) st0 st' Hsaved0 Hbest0 Hloop')
    as [Hn' Hs'].
  split; [|done].
  apply train_step_inv in Hstep as (batch & it & passes & rng' & _ & _ & Hsave & _).
  apply save_block_inv in Hsave as [(Hfire & d & Hd & Hf & Hs)|(Hskip & Hf & Hs)].
  - left. split; [exact Hfire|]. by exists d.
  - by right.
Qed.

Lemma checkpoint_persistence_witness :
  st_saved toy_state = [] /\ best_state_dict toy_state = None /\
  train_loop (H := toy_external) toy_config (toy_loader 2 1 true)
    (toy_loader 2 1 false) 1 toy_state = Ok (toy_after 1) /\
  train_step (H := toy_external) toy_config (toy_loader 2 1 true)
    (toy_loader 2 1 false) (Z.of_nat 1) (toy_after 1) = Ok (toy_after 2) /\
  ((((Z.of_nat 1 + 1) mod save_steps toy_config = 0 /\
    exists sd, best_state_dict (toy_after 2) = Some sd /\
      st_saved (toy_after 2) = st_saved (toy_after 1)
        ++ [(save_path toy_config, deref (st_heap (toy_after 2)) sd);
            (archive_path (Z.of_nat 1), deref (st_heap (toy_after 2)) sd)] /\
      st_files (toy_after 2)
      = <[archive_path (Z.of_nat 1) := deref (st_heap (toy_after 2)) sd]>
          (<[save_path toy_config := deref (st_heap (toy_after 2)) sd]>
             (st_files (toy_after 1))))
   \/
   (((Z.of_nat 1 + 1) mod save_steps toy_config <> 0
     \/ best_state_dict (toy_after 2) = None) /\
    st_saved (toy_after 2) = st_saved (toy_after 1)
    /\ st_files (toy_after 2) = st_files (toy_after 1))) /\
  (best_state_dict (toy_after 1) = None ->
     st_saved (toy_after 1) = [] /\ st_files (toy_after 1) = st_files toy_state) /\
  (best_state_dict (toy_after 2) = None ->
     st_saved (toy_after 2) = [] /\ st_files (toy_after 2) = st_files toy_state) /\
  (is_Some (best_state_dict (toy_after 2)) ->
     (best_accuracy toy_state < best_accuracy (toy_after 2))%Q)).
Proof.
  assert (H1 : train_loop (H := toy_external) toy_config (toy_loader 2 1 true)
                 (toy_loader 2 1 false) 1 toy_state = Ok (toy_after 1))
    by (vm_compute; reflexivity).
  assert (H2 : train_step (H := toy_external) toy_config (toy_loader 2 1 true)
                 (toy_loader 2 1 false) (Z.of_nat 1) (toy_after 1) = Ok (toy_after 2))
    by (vm_compute; reflexivity).
  exact (conj eq_refl (conj eq_refl (conj H1 (conj H2
    (checkpoint_persistence (H := toy_external) toy_config (toy_loader 2 1 true)
       (toy_loader 2 1 false) 1 toy_state (toy_after 1) (toy_after 2)
       eq_refl eq_refl H1 H2))))).
Defined.

(** ** Validation leaves the model as it was *)

Lemma training_Classifier_init `{External} (d_model n_spks : nat) (dropout : Q) (h0 : heap) :
  training (Classifier_init d_model n_spks dropout h0).2 = true.
Proof.
  unfold Classifier_init.
  destruct (nn_Linear "prenet" n_mels d_model h0) as [h1 pre].
  destruct (alloc_named h1 (conformer_tensors d_model)) as [h2 conf].
  destruct (nn_Linear "pred_layer.0" d_model 600 h2) as [h3 pred]. reflexivity.
Qed.

Lemma train_init_training `{External} (cfg : config) (ds : myDataset)
    (files : gmap string checkpoint) (tl vl : DataLoader Subset) (st0 : train_state) :
  train_init cfg ds files = Ok (tl, vl, st0) -> training (st_model st0) = true.
Proof.
  unfold train_init. intros Hinit.
  destruct (get_dataloader ds (cfg_batch_size cfg)) as [[tl' vl']|e]; [|discriminate].
  cbn [mbind result_bind] in Hinit.
  pose proof (training_Classifier_init 320 (speaker_num ds) (4 # 10) []) as Ht.
  destruct (Classifier_init 320 (speaker_num ds) (4 # 10) []) as [h m].
  destruct (torch_load files "model.ckpt") as [c|e]; [|discriminate].
  cbn [mbind result_bind] in Hinit.
  destruct (load_state_dict h m c) as [h'|e]; [|discriminate].
  cbn [mbind result_bind] in Hinit. injection Hinit as _ _ <-. exact Ht.
Qed.

Lemma train_step_training `{External} (cfg : config) (tl vl : DataLoader Subset)
    (step : Z) (st st' : train_state) :
  training (st_model st) = true ->
  train_step cfg tl vl step st = Ok st' ->
  st_model st' = st_model st.
Proof.
  intros Ht Hstep.
  apply train_step_inv in Hstep as (batch & it & passes & rng' & _ & Hval & _).
  apply validation_block_inv in Hval as (_ & [->| [_ ->]] & _); [done|].
  rewrite <- Ht. apply set_training_same.
Qed.

Lemma train_loop_model `{External} (cfg : config) (tl vl : DataLoader Subset)
    (n : nat) (st0 st : train_state) :
  training (st_model st0) = true ->
  train_loop cfg tl vl n st0 = Ok st -> st_model st = st_model st0.
Proof.
  intros Ht. revert st. induction n as [|n IH]; intros st Hloop.
  - by injection Hloop as <-.
  - apply train_loop_S in Hloop as (st1 & Hst1 & Hstep).
    specialize (IH st1 Hst1).
    rewrite <- IH. apply (train_step_training _ _ _ _ _ _ ltac:(by rewrite IH) Hstep).
Qed.

(** C8. A validation pass writes no tensor of the model and ends with the
    module in training mode.  The module of a training run is in training
    mode at every step, so each validation pass of a run returns the heap and
    the module exactly as it received them, and the step's own result carries
    the same heap and module as the update block produced. *)
Theorem validation_leaves_model_unchanged `{External} :
  (forall (dl : DataLoader Subset) (h : heap) (m : Classifier) (rng : nat)
          (acc : Q) (h' : heap) (m' : Classifier) (rng' : nat),
     valid dl h m rng = Ok (acc, (h', m', rng')) ->
     h' = h /\ m' = set_training m true) /\
  (forall (cfg : config) (ds : myDataset) (files : gmap string checkpoint)
          (tl vl : DataLoader Subset) (st0 st : train_state) (n : nat),
     train_init cfg ds files = Ok (tl, vl, st0) ->
     train_loop cfg tl vl n st0 = Ok st ->
     training (st_model st) = true /\
     (forall (h : heap) (rng : nat) (acc : Q) (h' : heap) (m' : Classifier) (rng' : nat),
        valid vl h (st_model st) rng = Ok (acc, (h', m', rng')) ->
        h' = h /\ m' = st_model st /\ training m' = training (st_model st)) /\
     (forall st' : train_state,
        train_step cfg tl vl (Z.of_nat n) st = Ok st' ->
        st_model st' = st_model st /\
        exists batch,
          st_heap st' = (update_block batch (st_heap st) (st_model st)
                           (st_last_epoch st) (st_optimizer st)).1)).
Proof.
  split; [intros; by eapply valid_frame|].
  intros cfg ds files tl vl st0 st n Hinit Hloop.
  pose proof (train_init_training _ _ _ _ _ _ Hinit) as Ht0.
  pose proof (train_loop_model _ _ _ _ _ _ Ht0 Hloop) as Hm.
  assert (Ht : training (st_model st) = true) by (by rewrite Hm).
  split; [exact Ht|]. split.
  - intros h rng acc h' m' rng' Hv. apply valid_frame in Hv as [-> ->].
    split; [done|]. rewrite <- Ht. by rewrite set_training_same.
  - intros st' Hstep. split; [by eapply train_step_training|].
    apply train_step_inv in Hstep as (batch & it & passes & rng' & _ & Hval & _).
    apply validation_block_inv in Hval as (-> & _). by exists batch.
Qed.

Lemma validation_leaves_model_unchanged_witness :
  valid (H := toy_external) (toy_loader 2 1 false) toy_heap toy_model 0
    = Ok ((0 # 2)%Q, (toy_heap, toy_model, 2%nat)) /\
  toy_heap = toy_heap /\ toy_model = set_training toy_model true.
Proof.
  assert (Hv : valid (H := toy_external) (toy_loader 2 1 false) toy_heap toy_model 0
               = Ok ((0 # 2)%Q, (toy_heap, toy_model, 2%nat)))
    by (vm_compute; reflexivity).
  exact (conj Hv (proj1 (validation_leaves_model_unchanged (H := toy_external))
                   _ _ _ _ _ _ _ _ Hv)).
Defined.

(** ** The training batch stream *)

Lemma mapM_Raise {A B : Type} (f : A -> result B) (l : list A) (e : exn) :
  mapM f l = Raise e -> exists x, x ∈ l /\ f x = Raise e.
Proof.
  induction l as [|x l IH]; simpl; [discriminate|].
  destruct (f x) as [y|e'] eqn:Hx.
  - cbn [mbind result_bind]. destruct (mapM f l) as [ys|e'']; [discriminate|].
    cbn [mbind result_bind]. intros [= ->].
    destruct IH as (x' & Hin & Hx'); [done|]. exists x'. split; [by right|done].
  - cbn [mbind result_bind]. intros [= ->]. exists x. split; [left|done].
Qed.

Lemma getitem_raises `{External} (ds : myDataset) (rng i : nat) (e : exn) :
  getitem ds rng i = Raise e -> e = IndexError \/ e = FileNotFoundError.
Proof.
  unfold getitem.
  destruct (ds_data ds !! i) as [[feat_path speaker]|]; [|intros [= <-]; by left].
  destruct (data_dir ds !! feat_path); [discriminate|intros [= <-]; by right].
Qed.

Lemma subset_getitem_raises `{External} (s : Subset) (rng i : nat) (e : exn) :
  subset_getitem s rng i = Raise e -> e = IndexError \/ e = FileNotFoundError.
Proof.
  unfold subset_getitem.
  destruct (sub_indices s !! i); [apply getitem_raises|intros [= <-]; by left].
Qed.

(** Fetching a batch raises only what loading an item or collating raises. *)
Lemma fetch_raises `{External} (s : Subset) (rng : nat) (indices : list nat) (e : exn) :
  fetch s rng indices = Raise e ->
  e = IndexError \/ e = FileNotFoundError \/ e = ValueError.
Proof.
  unfold fetch.
  destruct (mapM _ (imap pair indices)) as [items|e'] eqn:Hitems.
  - cbn [mbind result_bind]. destruct items; [|discriminate].
    intros [= <-]. by right; right.
  - cbn [mbind result_bind]. intros [= ->].
    apply mapM_Raise in Hitems as ([k i] & _ & Hraise).
    apply subset_getitem_raises in Hraise as [->| ->]; auto.
Qed.

Lemma loader_next_cons `{External} (s : Subset) (rng : nat) (indices : list nat)
    (it : list (list nat)) :
  loader_next s rng (indices :: it) <> Raise StopIteration.
Proof.
  cbn [loader_next]. destruct (fetch s rng indices) as [batch|e] eqn:Hf; [discriminate|].
  cbn [mbind result_bind]. intros [= ->].
  apply fetch_raises in Hf as [?|[?|?]]; discriminate.
Qed.

Lemma length_iter {D : Type} `{External} (dl : DataLoader D) (pass : nat) :
  length (iter dl pass) = loader_len dl.
Proof. unfold iter, batch_sampler. by rewrite length_map, length_seq. Qed.

Lemma next_batch_restart `{External} (tl : DataLoader Subset) (rng passes : nat) :
  next_batch tl rng passes []
  = ('(batch, it') ← loader_next (dataset tl) rng (iter tl (S passes));
     Ok (batch, it', S passes)).
Proof. reflexivity. Qed.

Lemma next_batch_not_stop `{External} (tl : DataLoader Subset) (rng passes : nat)
    (it : list (list nat)) :
  (0 < loader_len tl)%nat -> next_batch tl rng passes it <> Raise StopIteration.
Proof.
  intros Hlen. destruct it as [|indices it].
  - rewrite next_batch_restart.
    pose proof (length_iter tl (S passes)) as Hl.
    destruct (iter tl (S passes)) as [|first rest]; [simpl in Hl; lia|].
    pose proof (loader_next_cons (dataset tl) rng first rest) as Hne.
    destruct (loader_next (dataset tl) rng (first :: rest)) as [[batch it']|e];
      [discriminate|]. cbn [mbind result_bind]. congruence.
  - unfold next_batch.
    pose proof (loader_next_cons (dataset tl) rng indices it) as Hne.
    destruct (loader_next (dataset tl) rng (indices :: it)) as [[batch it']|e];
      [discriminate|]. destruct e; congruence.
Qed.

Lemma valid_loop_not_stop `{External} (s : Subset) (it : list (list nat))
    (acc : Q) (h : heap) (m : Classifier) (rng : nat) :
  valid_loop s it acc h m rng <> Raise StopIteration.
Proof.
  revert acc h rng. induction it as [|indices it IH]; intros acc h rng; simpl.
  - discriminate.
  - destruct (fetch s rng indices) as [batch|e] eqn:Hf.
    + cbn [mbind result_bind].
      destruct (model_fn batch h m) as [[[loss a] h']|e] eqn:Hfn; cbn [mbind result_bind].
      * apply IH.
      * intros [= ->]. apply model_fn_raises in Hfn. discriminate.
    + cbn [mbind result_bind]. intros [= ->].
      apply fetch_raises in Hf as [?|[?|?]]; discriminate.
Qed.

Lemma valid_not_stop `{External} (dl : DataLoader Subset) (h : heap) (m : Classifier)
    (rng : nat) : valid dl h m rng <> Raise StopIteration.
Proof.
  unfold valid.
  pose proof (valid_loop_not_stop (dataset dl) (iter dl 0) 0%Q h (set_training m false) rng).
  destruct (valid_loop _ _ _ _ _ _) as [[[acc h1] rng1]|e]; [|cbn; congruence].
  cbn [mbind result_bind]. destruct (loader_len dl =? 0)%nat; discriminate.
Qed.

Lemma train_step_not_stop `{External} (cfg : config) (tl vl : DataLoader Subset)
    (step : Z) (st : train_state) :
  (0 < loader_len tl)%nat -> train_step cfg tl vl step st <> Raise StopIteration.
Proof.
  intros Hlen. unfold train_step.
  pose proof (next_batch_not_stop tl (st_rng st) (st_passes st) (train_iterator st) Hlen).
  destruct (next_batch _ _ _ _) as [[[batch it] passes]|e]; [|cbn; congruence].
  cbn [mbind result_bind].
  destruct (model_fn batch (st_heap st) (st_model st)) as [[[loss a] h0]|e] eqn:Hfn;
    cbn [mbind result_bind];
    [|intros [= ->]; apply model_fn_raises in Hfn; discriminate].
  destruct (optimizer_block _ _ _ _ _) as [h opt].
  unfold validation_block.
  destruct (valid_steps cfg =? 0); [discriminate|].
  destruct ((step + 1) mod valid_steps cfg =? 0).
  - pose proof (valid_not_stop vl h (st_model st) (st_rng st + batch_size tl)).
    destruct (valid _ _ _ _) as [[acc [[h1 m1] rng1]]|e]; [|cbn; congruence].
    cbn [mbind result_bind].
    destruct (Qltb _ _); cbn [mbind result_bind]; unfold save_block;
      destruct (save_steps cfg =? 0); try discriminate;
      destruct (_ =? 0); try destruct (best_state_dict st); discriminate.
  - cbn [mbind result_bind]. unfold save_block.
    destruct (save_steps cfg =? 0); try discriminate.
    destruct (_ =? 0); try destruct (best_state_dict st); discriminate.
Qed.

(** C6, as amended. When one pass over the training loader has at least one
    batch, drawing the batch of a step never raises StopIteration: an
    exhausted iterator is replaced by the iterator of a new, reshuffled pass
    and its first batch is drawn, and no step of the loop, so no run of it,
    ends in StopIteration. *)
Theorem training_stream_restarts `{External} (cfg : config)
    (tl vl : DataLoader Subset) :
  (0 < loader_len tl)%nat ->
  (forall (rng passes : nat) (it : list (list nat)),
     next_batch tl rng passes it <> Raise StopIteration) /\
  (forall rng passes : nat,
     exists first rest,
       iter tl (S passes) = first :: rest /\
       next_batch tl rng passes []
       = (batch ← fetch (dataset tl) rng first; Ok (batch, rest, S passes))) /\
  (forall (n : nat) (st0 : train_state),
     train_loop cfg tl vl n st0 <> Raise StopIteration).
Proof.
  intros Hlen. split; [intros; by apply next_batch_not_stop|]. split.
  - intros rng passes. pose proof (length_iter tl (S passes)) as Hl.
    rewrite next_batch_restart.
    destruct (iter tl (S passes)) as [|first rest]; [simpl in Hl; lia|].
    exists first, rest. split; [done|]. cbn [loader_next].
    by destruct (fetch (dataset tl) rng first).
  - intros n st0. induction n as [|n IH]; cbn [train_loop]; [discriminate|].
    destruct (train_loop cfg tl vl n st0) as [st|e]; [|cbn; congruence].
    cbn [mbind result_bind]. by apply train_step_not_stop.
Qed.

Lemma training_stream_restarts_witness :
  (0 < loader_len (toy_loader 2 1 true))%nat /\
  (forall (rng passes : nat) (it : list (list nat)),
     next_batch (H := toy_external) (toy_loader 2 1 true) rng passes it
     <> Raise StopIteration) /\
  (forall (n : nat) (st0 : train_state),
     train_loop (H := toy_external) toy_config (toy_loader 2 1 true)
       (toy_loader 2 1 false) n st0 <> Raise StopIteration).
Proof.
  assert (Hlen : (0 < loader_len (toy_loader 2 1 true))%nat) by (vm_compute; lia).
  pose proof (training_stream_restarts (H := toy_external) toy_config
                (toy_loader 2 1 true) (toy_loader 2 1 false) Hlen) as (Ha & _ & Hc).
  exact (conj Hlen (conj Ha Hc)).
Defined.

(** C6, as first stated, fails: with 20 utterances the training split holds
    18, fewer than the 32 of one batch; the loader is built but has no batch
    to serve, and the first draw of the training loop ends the run in
    StopIteration. *)
Lemma training_stream_exhausted :
  length (ds_data (toy_dataset 128 20)) = 20%nat /\
  cfg_batch_size small_config = 32%nat /\
  (exists tl vl,
     get_dataloader (H := toy_external) (toy_dataset 128 20) 32 = Ok (tl, vl) /\
     dataset_len tl = 18%nat /\ loader_len tl = 0%nat) /\
  train_main (H := toy_external) small_config (toy_dataset 128 20) toy_files
  = Raise StopIteration.
Proof.
  split; [reflexivity|]. split; [reflexivity|]. split.
  - eexists _, _. split; [vm_compute; reflexivity|]. split; reflexivity.
  - vm_compute. reflexivity.
Qed.

(** ** The best checkpoint is a reference to the live tensors *)

(** C1 fails on the code.  In the small run the validation of step 0 records
    the best accuracy and [best_state_dict]; step 1 updates the parameters,
    validates without improving, and saves.  The file then holds the entries
    the tensors have after the update of step 1 (all raised by one), not the
    entries they had when the best accuracy was recorded. *)
Lemma best_checkpoint_not_a_snapshot :
  exists sd : list (string * loc),
    train_loop (H := toy_external) toy_config (toy_loader 2 1 true)
      (toy_loader 2 1 false) 1 toy_state = Ok (toy_after 1) /\
    train_loop (H := toy_external) toy_config (toy_loader 2 1 true)
      (toy_loader 2 1 false) 2 toy_state = Ok (toy_after 2) /\
    best_state_dict (toy_after 1) = Some sd /\
    (best_accuracy toy_state < best_accuracy (toy_after 1))%Q /\
    best_accuracy (toy_after 2) = best_accuracy (toy_after 1) /\
    best_state_dict (toy_after 2) = Some sd /\
    st_files (toy_after 2) !! save_path toy_config
      = Some (deref (st_heap (toy_after 2)) sd) /\
    deref (st_heap (toy_after 1)) sd
      = [("prenet.weight"%string, Tensor [1; 40]%nat (replicate 40 1%Q));
         ("prenet.bias"%string, Tensor [1%nat] [1%Q]);
         ("pred_layer.0.weight"%string, Tensor [2; 1]%nat [1%Q; 2%Q]);
         ("pred_layer.0.bias"%string, Tensor [2%nat] [1%Q; 1%Q])] /\
    deref (st_heap (toy_after 2)) sd
      = [("prenet.weight"%string, Tensor [1; 40]%nat (replicate 40 2%Q));
         ("prenet.bias"%string, Tensor [1%nat] [2%Q]);
         ("pred_layer.0.weight"%string, Tensor [2; 1]%nat [2%Q; 3%Q]);
         ("pred_layer.0.bias"%string, Tensor [2%nat] [2%Q; 2%Q])] /\
    deref (st_heap (toy_after 2)) sd <> deref (st_heap (toy_after 1)) sd.
Proof.
  exists (state_dict toy_model).
  repeat (split; [vm_compute; reflexivity|]).
  intros Heq. vm_compute in Heq. discriminate.
Qed.


(** ** Further properties of the dataset and the loaders *)

Lemma float_long_small (z : Z) : Z.abs z <= 2 ^ 24 -> float_long z = z.
Proof.
  intros Hz. apply float_long_exact.
  destruct (Z.eq_dec (Z.abs z) (2 ^ 24)) as [Heq|Hne].
  - split.
    + exists (Z.sgn z), 24. split; [lia|]. split; [lia|].
      rewrite <- Heq. symmetry. rewrite Z.mul_comm. apply Z.abs_sgn.
    + assert (2 ^ 24 < 2 ^ 63) by (apply Z.pow_lt_mono_r; lia). lia.
  - apply float32_exact_small. lia.
Qed.

(** Rounding to [p] bits in the top half-step below a power of two. *)
Lemma round_nat_top (p k a : Z) :
  0 < p -> p < k ->
  2 ^ k - 2 ^ (k - p - 1) <= a < 2 ^ k ->
  round_nat p a = 2 ^ k.
Proof.
  intros Hp Hk [Hlo Hhi]. unfold round_nat.
  assert (Hpk : 0 < 2 ^ (k - p - 1)) by (apply Z.pow_pos_nonneg; lia).
  assert (Hpp : 0 < 2 ^ p) by (apply Z.pow_pos_nonneg; lia).
  assert (Hsplit1 : 2 ^ k = 2 ^ (k - 1) * 2).
  { replace k with (k - 1 + 1) at 1 by lia. by rewrite Z.pow_add_r by lia. }
  assert (Hsplit2 : 2 ^ (k - 1) = 2 ^ (k - p - 1) * 2 ^ p).
  { rewrite <- Z.pow_add_r by lia. f_equal. lia. }
  assert (Hpow : 2 <= 2 ^ p).
  { change 2 with (2 ^ 1) at 1. apply Z.pow_le_mono_r; lia. }
  assert (Hge : 2 ^ (k - 1) <= a) by nia.
  assert (Hlog : Z.log2 a = k - 1).
  { apply Z.log2_unique; [lia|]. replace (Z.succ (k - 1)) with k by lia. lia. }
  destruct (Z.ltb_spec a (2 ^ p)) as [Hsmall|_].
  { assert (2 ^ p <= 2 ^ (k - 1)) by (apply Z.pow_le_mono_r; lia). lia. }
  cbv zeta. rewrite Hlog.
  replace (k - 1 - (p - 1)) with (k - p) by lia.
  assert (HE : 2 ^ (k - p) = 2 ^ (k - p - 1) * 2).
  { replace (k - p) with (k - p - 1 + 1) at 1 by lia. by rewrite Z.pow_add_r by lia. }
  set (h := 2 ^ (k - p - 1)) in *.
  assert (Hk2 : 2 ^ k = 2 ^ p * 2 ^ (k - p)).
  { rewrite <- Z.pow_add_r by lia. f_equal. lia. }
  assert (Hq : a / 2 ^ (k - p) = 2 ^ p - 1).
  { symmetry. apply Z.div_unique with (r := a - (2 ^ p - 1) * 2 ^ (k - p)); [nia|nia]. }
  assert (Hr : a mod 2 ^ (k - p) = a - (2 ^ p - 1) * 2 ^ (k - p)).
  { rewrite Z.mod_eq by lia. rewrite Hq. ring. }
  rewrite Hq, Hr.
  assert (Hodd : Z.odd (2 ^ p - 1) = true).
  { replace (2 ^ p - 1) with (1 + 2 * (2 ^ (p - 1) - 1)).
    - rewrite Z.odd_add_mul_2. reflexivity.
    - replace p with (p - 1 + 1) at 2 by lia. rewrite Z.pow_add_r by lia. lia. }
  rewrite Hodd, andb_true_r.
  replace (k - p - 1) with (k - p - 1) by lia. fold h.
  assert (Hrh : h <= a - (2 ^ p - 1) * 2 ^ (k - p)) by nia.
  destruct (Z.ltb_spec h (a - (2 ^ p - 1) * 2 ^ (k - p))) as [?|Hle]; cbn [orb].
  - nia.
  - destruct (Z.eqb_spec (a - (2 ^ p - 1) * 2 ^ (k - p)) h) as [?|?]; [nia|lia].
Qed.

(** Within half a float32 step below 2^63 the double and then the float
    round up to 2^63. *)
Lemma float_rounds_to_2_63 (a : Z) :
  2 ^ 63 - 2 ^ 38 <= a <= 2 ^ 63 ->
  float32_round_nat (float64_round_nat a) = 2 ^ 63.
Proof.
  intros [Hlo Hhi].
  assert (H63 : float32_round_nat (2 ^ 63) = 2 ^ 63).
  { change (2 ^ 63) with (2 ^ 23 * 2 ^ 40). apply float32_round_nat_exact; lia. }
  destruct (Z.eq_dec a (2 ^ 63)) as [->|Hne].
  { assert (H64 : float64_round_nat (2 ^ 63) = 2 ^ 63).
    { change (2 ^ 63) with (2 ^ 23 * 2 ^ 40). apply float64_round_nat_exact; lia. }
    rewrite H64. exact H63. }
  assert (Hlog : Z.log2 a = 62) by (apply Z.log2_unique; lia).
  assert (Hd : 2 ^ 63 - 2 ^ 38 <= float64_round_nat a <= 2 ^ 63).
  { unfold float64_round_nat, round_nat.
    destruct (Z.ltb_spec a (2 ^ 53)) as [?|_]; [lia|].
    cbv zeta. rewrite Hlog. change (62 - (53 - 1)) with 10.
    pose proof (Z.div_mod a (2 ^ 10) ltac:(lia)) as Hdm.
    pose proof (Z.mod_pos_bound a (2 ^ 10) ltac:(lia)) as Hmod.
    assert (Hq : 2 ^ 53 - 2 ^ 28 <= a / 2 ^ 10 <= 2 ^ 53 - 1).
    { split; [apply Z.div_le_lower_bound; lia|].
      apply Z.lt_succ_r, Z.div_lt_upper_bound; lia. }
    match goal with |- context [if ?c then _ else _] => destruct c end; lia. }
  destruct (Z.eq_dec (float64_round_nat a) (2 ^ 63)) as [->|Hne2]; [exact H63|].
  apply (round_nat_top 24 63); lia.
Qed.

(** X1. For a speaker id in the int64 range, the label conversion
    [torch.FloatTensor([id]).long()] returns an int64 that float32 holds
    exactly, so that converting a second time changes nothing; an id of
    magnitude at most 2^24 comes out as it is, and an id of magnitude
    2^63 - 2^38 or more comes out as -2^63, whatever its sign. *)
Theorem float_long_idempotent (z : Z) :
  - 2 ^ 63 <= z < 2 ^ 63 ->
  float32_exact (float_long z) /\
  float_long (float_long z) = float_long z /\
  (Z.abs z <= 2 ^ 24 -> float_long z = z) /\
  (2 ^ 63 - 2 ^ 38 <= Z.abs z -> float_long z = - 2 ^ 63).
Proof.
  intros Hrange.
  split; [apply float_long_is_exact|].
  split; [apply float_long_exact, float_long_is_exact|].
  split; [apply float_long_small|].
  intros Htop. unfold float_long, float_of_int.
  rewrite float_rounds_to_2_63 by lia.
  destruct (Z.ltb_spec z 0); reflexivity.
Qed.

Lemma float_long_idempotent_witness :
  - 2 ^ 63 <= 9223372036854775807 < 2 ^ 63 /\
  float_long 9223372036854775807 = - 2 ^ 63 /\
  float_long (float_long 9223372036854775807) = float_long 9223372036854775807.
Proof.
  assert (Hr : - 2 ^ 63 <= 9223372036854775807 < 2 ^ 63) by lia.
  assert (Ht : 2 ^ 63 - 2 ^ 38 <= Z.abs 9223372036854775807) by (cbn; lia).
  pose proof (float_long_idempotent 9223372036854775807 Hr) as (_ & Hidem & _ & Htop).
  exact (conj Hr (conj (Htop Ht) Hidem)).
Defined.

(** X2. [__getitem__] raises IndexError exactly for an index past the end of
    the data and FileNotFoundError exactly when the record's feature file is
    missing; for a record whose file exists and whose speaker id has
    magnitude at most 2^24, it returns a segment with that id as label. *)
Theorem getitem_outcomes `{External} (ds : myDataset) (rng index : nat) :
  (getitem ds rng index = Raise IndexError <->
     (length (ds_data ds) <= index)%nat) /\
  (getitem ds rng index = Raise FileNotFoundError <->
     exists feat_path speaker,
       ds_data ds !! index = Some (feat_path, speaker) /\
       data_dir ds !! feat_path = None) /\
  (forall feat_path speaker (m : mel),
     ds_data ds !! index = Some (feat_path, speaker) ->
     data_dir ds !! feat_path = Some m ->
     Z.abs speaker <= 2 ^ 24 ->
     exists seg, getitem ds rng index = Ok (seg, speaker)).
Proof.
  unfold getitem. plain_types.
  destruct (ds_data ds !! index) as [[feat_path speaker]|] eqn:Hrec.
  - assert (Hlt : (index < length (ds_data ds))%nat) by (by eapply lookup_lt_Some).
    cbv beta iota.
    match goal with |- context [@lookup ?K ?V ?M ?L feat_path ?d] =>
      destruct (@lookup K V M L feat_path d) as [m|] eqn:Hfile end.
    + split; [split; [discriminate|lia]|].
      split; [split; [discriminate|]|].
      * intros (p & s & Hp & Hnone). simplify_eq.
      * intros p s m' Hp Hm Hs. simplify_eq. eexists.
        by rewrite (float_long_small _ Hs).
    + split; [split; [discriminate|lia]|].
      split; [split; [eauto|done]|].
      intros p s m' Hp Hsome. simplify_eq.
  - apply lookup_ge_None in Hrec.
    split; [split; [done|done]|].
    split; [split; [discriminate|]|].
    + intros (p & s & Hsome & _). discriminate.
    + intros p s m' Hsome. discriminate.
Qed.

Lemma getitem_outcomes_witness :
  (length (ds_data (toy_dataset 128 1)) <= 5)%nat /\
  getitem (H := toy_external) (toy_dataset 128 1) 0 5 = Raise IndexError /\
  Z.abs 1 <= 2 ^ 24 /\
  exists seg, getitem (H := toy_external) (toy_dataset 128 1) 0 0 = Ok (seg, 1).
Proof.
  assert (Hlen : (length (ds_data (toy_dataset 128 1)) <= 5)%nat) by (cbn; lia).
  assert (Hid : Z.abs 1 <= 2 ^ 24) by (cbn; lia).
  exact (conj Hlen (conj
    (proj2 (proj1 (getitem_outcomes (H := toy_external) (toy_dataset 128 1) 0 5)) Hlen)
    (conj Hid
      (proj2 (proj2 (getitem_outcomes (H := toy_external) (toy_dataset 128 1) 0 0))
         "uttr-a.pt"%string 1 toy_mel eq_refl eq_refl Hid)))).
Defined.

(** X3. [get_dataloader] raises ValueError, and nothing else, exactly when
    the batch size is 0 or the dataset has at most one utterance (the
    training split is then empty); otherwise every utterance of the dataset
    lands in exactly one of the two subsets, nine tenths of them (rounded
    down) in the training subset, which is not empty, and both loaders drop
    their last partial batch, the training loader alone shuffling. *)
Theorem get_dataloader_split `{External} (ds : myDataset) (bs : nat) :
  (get_dataloader ds bs = Raise ValueError <->
     bs = 0%nat \/ (length (ds_data ds) <= 1)%nat) /\
  (forall e, get_dataloader ds bs = Raise e -> e = ValueError) /\
  (bs <> 0%nat -> (2 <= length (ds_data ds))%nat ->
   exists tl vl,
     get_dataloader ds bs = Ok (tl, vl) /\
     sub_dataset (dataset tl) = ds /\ sub_dataset (dataset vl) = ds /\
     Permutation (sub_indices (dataset tl) ++ sub_indices (dataset vl))
       (seq 0 (length (ds_data ds))) /\
     dataset_len tl = (9 * length (ds_data ds) / 10)%nat /\
     dataset_len vl = (length (ds_data ds) - 9 * length (ds_data ds) / 10)%nat /\
     dataset_len tl = length (sub_indices (dataset tl)) /\
     dataset_len vl = length (sub_indices (dataset vl)) /\
     (0 < dataset_len tl)%nat /\
     loader_len tl = (9 * length (ds_data ds) / 10 / bs)%nat /\
     loader_len vl
       = ((length (ds_data ds) - 9 * length (ds_data ds) / 10) / bs)%nat /\
     shuffle tl = true /\ shuffle vl = false).
Proof.
  set (n := length (ds_data ds)).
  assert (Hsplit : (9 * n / 10 = 0)%nat <-> (n <= 1)%nat).
  { rewrite Nat.div_small_iff by lia. lia. }
  assert (Hdiv : (9 * n / 10 <= n)%nat).
  { apply Nat.Div0.div_le_upper_bound. lia. }
  unfold get_dataloader. fold n.
  destruct (Nat.eqb_spec (9 * n / 10) 0) as [Hempty|Hfull];
    destruct (Nat.eqb_spec bs 0) as [Hbs|Hbs]; cbn [orb].
  - split; [split; [by left|done]|]. split; [by intros e [= <-]|]. done.
  - split; [split; [intros _; right; by apply Hsplit|done]|].
    split; [by intros e [= <-]|]. intros _ Hn. apply Hsplit in Hempty. lia.
  - split; [split; [by left|done]|]. split; [by intros e [= <-]|]. done.
  - split; [split; [discriminate|intros [?|Hn]; [done|by apply Hsplit in Hn]]|].
    split; [discriminate|]. intros _ _.
    assert (Hperm : length (randperm 0 n) = n).
    { rewrite (Permutation_length (randperm_perm 0 n)). apply length_seq. }
    eexists _, _. split; [reflexivity|].
    unfold loader_len.
    cbn [dataset dataset_len batch_size shuffle drop_last sub_dataset sub_indices].
    rewrite take_drop, length_take, length_drop, Hperm.
    rewrite Nat.min_l by exact Hdiv.
    repeat split; try reflexivity; [apply randperm_perm|lia].
Qed.

Lemma get_dataloader_split_witness :
  2%nat <> 0%nat /\ (2 <= length (ds_data (toy_dataset 128 5)))%nat /\
  exists tl vl,
    get_dataloader (H := toy_external) (toy_dataset 128 5) 2 = Ok (tl, vl) /\
    Permutation (sub_indices (dataset tl) ++ sub_indices (dataset vl))
      (seq 0 (length (ds_data (toy_dataset 128 5)))).
Proof.
  assert (Hbs : 2%nat <> 0%nat) by discriminate.
  assert (Hn : (2 <= length (ds_data (toy_dataset 128 5)))%nat) by (cbn; lia).
  split; [exact Hbs|]. split; [exact Hn|].
  destruct (proj2 (proj2 (get_dataloader_split (H := toy_external)
                            (toy_dataset 128 5) 2)) Hbs Hn)
    as (tl & vl & Hget & _ & _ & Hperm & _).
  exists tl, vl. exact (conj Hget Hperm).
Defined.

Lemma concat_batches {A : Type} (order : list A) (bs m : nat) :
  concat (map (fun k => take bs (drop (k * bs) order)) (seq 0 m))
  = take (m * bs) order.
Proof.
  induction m as [|m IH]; [reflexivity|].
  rewrite seq_S, map_app, concat_app, IH. cbn [map concat Nat.add].
  rewrite app_nil_r, take_take_drop. f_equal. lia.
Qed.

Lemma NoDup_sampler `{External} {D : Type} (dl : DataLoader D) (pass : nat) :
  NoDup (sampler dl pass) /\
  Forall (fun i => (i < dataset_len dl)%nat) (sampler dl pass) /\
  length (sampler dl pass) = dataset_len dl.
Proof.
  assert (Hseq : Permutation (sampler dl pass) (seq 0 (dataset_len dl))).
  { unfold sampler. destruct (shuffle dl); [apply randperm_perm|done]. }
  split; [|split].
  - rewrite Hseq. apply NoDup_ListNoDup, seq_NoDup.
  - rewrite Hseq. apply Forall_forall. intros i Hi.
    apply list_elem_of_In, in_seq in Hi. lia.
  - rewrite (Permutation_length Hseq). apply length_seq.
Qed.

(** X4. One pass over a loader that drops its last partial batch serves
    len / batch_size batches of exactly batch_size indices each; taken
    together they are the first (len / batch_size) * batch_size indices of
    the pass's order, so no item is served twice and every index is in
    range. *)
Theorem pass_batches `{External} {D : Type} (dl : DataLoader D) (pass : nat) :
  (0 < batch_size dl)%nat -> drop_last dl = true ->
  length (iter dl pass) = (dataset_len dl / batch_size dl)%nat /\
  Forall (fun b => length b = batch_size dl) (iter dl pass) /\
  concat (iter dl pass)
    = take (dataset_len dl / batch_size dl * batch_size dl) (sampler dl pass) /\
  NoDup (concat (iter dl pass)) /\
  Forall (fun i => (i < dataset_len dl)%nat) (concat (iter dl pass)).
Proof.
  intros Hbs Hdrop.
  destruct (NoDup_sampler dl pass) as (Hnd & Hrange & Hlen).
  assert (Hll : loader_len dl = (dataset_len dl / batch_size dl)%nat).
  { unfold loader_len. by rewrite Hdrop. }
  assert (Hconcat : concat (iter dl pass)
    = take (dataset_len dl / batch_size dl * batch_size dl) (sampler dl pass)).
  { unfold iter, batch_sampler. by rewrite concat_batches, Hll. }
  split; [by rewrite length_iter|]. split; [|split; [exact Hconcat|]].
  - unfold iter, batch_sampler. apply Forall_map, Forall_forall.
    intros k Hk. apply list_elem_of_In, in_seq in Hk. cbn beta.
    rewrite length_take, length_drop, Hlen.
    assert (S k * batch_size dl <= dataset_len dl)%nat; [|lia].
    etrans; [|apply (Nat.Div0.mul_div_le _ (batch_size dl))].
    rewrite (Nat.mul_comm (batch_size dl)). apply Nat.mul_le_mono_r. lia.
  - rewrite Hconcat. split.
    + exact (sublist_NoDup _ _ Hnd (sublist_take _ _)).
    + eapply Forall_take, Hrange.
Qed.

Lemma pass_batches_witness :
  (0 < batch_size (toy_loader 5 2 true))%nat /\
  drop_last (toy_loader 5 2 true) = true /\
  length (iter (H := toy_external) (toy_loader 5 2 true) 1) = (5 / 2)%nat /\
  concat (iter (H := toy_external) (toy_loader 5 2 true) 1)
    = take (5 / 2 * 2) (sampler (H := toy_external) (toy_loader 5 2 true) 1) /\
  NoDup (concat (iter (H := toy_external) (toy_loader 5 2 true) 1)).
Proof.
  assert (Hbs : (0 < batch_size (toy_loader 5 2 true))%nat) by (cbn; lia).
  pose proof (pass_batches (H := toy_external) (toy_loader 5 2 true) 1 Hbs eq_refl)
    as (Hl & _ & Hc & Hn & _).
  exact (conj Hbs (conj eq_refl (conj Hl (conj Hc Hn)))).
Defined.

(** X5. A loader that keeps its last partial batch serves every index of the
    pass's order exactly once. *)
Theorem pass_batches_keep_last `{External} {D : Type} (dl : DataLoader D) (pass : nat) :
  (0 < batch_size dl)%nat -> drop_last dl = false ->
  concat (iter dl pass) = sampler dl pass /\
  Permutation (concat (iter dl pass)) (seq 0 (dataset_len dl)).
Proof.
  intros Hbs Hdrop.
  destruct (NoDup_sampler dl pass) as (_ & _ & Hlen).
  assert (Hconcat : concat (iter dl pass) = sampler dl pass).
  { unfold iter, batch_sampler. rewrite concat_batches.
    apply take_ge. rewrite Hlen. unfold loader_len. rewrite Hdrop.
    pose proof (Nat.div_mod_eq (dataset_len dl + batch_size dl - 1) (batch_size dl)) as Hdm.
    pose proof (Nat.mod_upper_bound (dataset_len dl + batch_size dl - 1) (batch_size dl)
                  ltac:(lia)) as Hub.
    nia. }
  split; [exact Hconcat|]. rewrite Hconcat. unfold sampler.
  destruct (shuffle dl); [apply randperm_perm|done].
Qed.

Lemma pass_batches_keep_last_witness :
  (0 < 1)%nat /\
  concat (iter (H := toy_external)
            {| dataset := tt; dataset_len := 3; batch_size := 1;
               shuffle := false; drop_last := false |} 0)
  = [0; 1; 2]%nat.
Proof.
  assert (Hbs : (0 < 1)%nat) by lia.
  exact (conj Hbs (proj1 (pass_batches_keep_last (H := toy_external)
    {| dataset := tt; dataset_len := 3; batch_size := 1;
       shuffle := false; drop_last := false |} 0 Hbs eq_refl))).
Defined.

Lemma py_slice_length_le {A : Type} (l : list A) (i len : Z) :
  0 <= i -> 0 <= len -> Z.of_nat (length (py_slice l i (i + len))) <= len.
Proof.
  intros Hi Hlen. unfold py_slice, slice_bound.
  destruct (Z.ltb_spec i 0) as [?|_]; [lia|].
  destruct (Z.ltb_spec (i + len) 0) as [?|_]; [lia|].
  rewrite length_take. lia.
Qed.

Lemma getitem_Ok_inv `{External} (ds : myDataset) (rng index : nat)
    (seg : mel) (label : Z) :
  0 <= segment_len ds ->
  getitem ds rng index = Ok (seg, label) ->
  Z.of_nat (length seg) <= segment_len ds /\ float32_exact label.
Proof.
  intros HS. unfold getitem.
  destruct (ds_data ds !! index) as [[feat_path speaker]|]; [|discriminate].
  destruct (data_dir ds !! feat_path) as [m|]; [|discriminate].
  intros [= <- <-]. split; [|apply float_long_is_exact].
  destruct (Z.ltb_spec (segment_len ds) (Z.of_nat (length m))) as [Hlong|Hshort]; [|lia].
  apply py_slice_length_le; [|exact HS].
  apply (randint_range rng 0 (Z.of_nat (length m) - segment_len ds)). lia.
Qed.

Lemma max_len_le (mels : list mel) (n : nat) :
  Forall (fun m => (length m <= n)%nat) mels -> (max_len mels <= n)%nat.
Proof. induction 1 as [|m mels Hm _ IH]; simpl; lia. Qed.

(** X6. A fetched training or validation batch holds one row and one label per
    requested index; its rows all have one length, which is at most
    segment_len, and its labels are the items' labels unchanged (a second
    pass through float32 changes nothing). *)
Theorem fetch_batch_shape `{External} (s : Subset) (rng : nat)
    (indices : list nat) (mels : list mel) (labels : list Z) :
  0 <= segment_len (sub_dataset s) ->
  fetch s rng indices = Ok (mels, labels) ->
  indices <> [] /\
  length mels = length indices /\ length labels = length indices /\
  (exists n : nat, Z.of_nat n <= segment_len (sub_dataset s) /\
     Forall (fun row => length row = n) mels) /\
  Forall float32_exact labels /\
  exists items,
    mapM (fun '(k, i) => subset_getitem s (rng + k) i) (imap pair indices) = Ok items /\
    labels = map snd items.
Proof.
  intros HS Hfetch. unfold fetch in Hfetch.
  destruct (mapM _ (imap pair indices)) as [items|e] eqn:Hitems; [|discriminate].
  cbn [mbind result_bind] in Hfetch.
  pose proof (mapM_Ok_Forall2 _ _ _ Hitems) as Hall.
  pose proof (Forall2_length _ _ _ Hall) as Hlen. rewrite length_imap in Hlen.
  assert (Hitem : Forall (fun it : mel * Z =>
            Z.of_nat (length it.1) <= segment_len (sub_dataset s)
            /\ float32_exact it.2) items).
  { eapply Forall2_Forall_r; [exact Hall|]. apply Forall_forall.
    intros [k i] _ [seg label] Hget. unfold subset_getitem in Hget.
    destruct (sub_indices s !! i); [|discriminate].
    by eapply getitem_Ok_inv. }
  assert (Hexact : Forall float32_exact (map snd items)).
  { apply Forall_map. eapply Forall_impl; [exact Hitem|]. by intros ? [_ ?]. }
  destruct items as [|it items']; [discriminate|].
  remember (it :: items') as items eqn:Hcons.
  assert (Hfetch' : Ok (pad_sequence (map fst items), map float_long (map snd items))
                    = Ok (mels, labels)) by (by subst).
  injection Hfetch' as <- <-. rewrite (map_float_long_exact _ Hexact).
  split; [intros ->; subst; discriminate|].
  split; [unfold pad_sequence; rewrite !length_map; lia|].
  split; [rewrite length_map; lia|].
  split; [|split; [exact Hexact|by exists items]].
  exists (max_len (map fst items)). split.
  - assert (max_len (map fst items) <= Z.to_nat (segment_len (sub_dataset s)))%nat; [|lia].
    apply max_len_le, Forall_map. eapply Forall_impl; [exact Hitem|].
    intros ? [? _]. cbn. lia.
  - unfold pad_sequence. apply Forall_map, Forall_forall. intros m Hin.
    cbn beta. apply pad_row_length, max_len_ge, Hin.
Qed.

Lemma fetch_batch_shape_witness :
  0 <= segment_len (sub_dataset (dataset (toy_loader 2 2 false))) /\
  fetch (H := toy_external) (dataset (toy_loader 2 2 false)) 0 [0; 1]%nat
    = Ok ([toy_mel; toy_mel], [1; 1]) /\
  length [toy_mel; toy_mel] = length [0; 1]%nat /\
  Forall float32_exact [1; 1].
Proof.
  assert (HS : 0 <= segment_len (sub_dataset (dataset (toy_loader 2 2 false))))
    by (cbn; lia).
  assert (Hf : fetch (H := toy_external) (dataset (toy_loader 2 2 false)) 0 [0; 1]%nat
               = Ok ([toy_mel; toy_mel], [1; 1])) by (vm_compute; reflexivity).
  pose proof (fetch_batch_shape (H := toy_external) _ _ _ _ _ HS Hf)
    as (_ & Hl & _ & _ & He & _).
  exact (conj HS (conj Hf (conj Hl He))).
Defined.

(** ** Further properties of validation and of the training loop *)

(** X7. A validation loader without a single full batch makes [valid] raise
    ZeroDivisionError (the mean is taken over [len(dataloader)]), so a step
    of the training loop that is due to validate never returns. *)
Theorem validation_needs_a_batch `{External} (vl : DataLoader Subset) :
  loader_len vl = 0%nat ->
  (forall h m rng, valid vl h m rng = Raise ZeroDivisionError) /\
  (forall cfg tl step st st',
     (step + 1) mod valid_steps cfg = 0 ->
     train_step cfg tl vl step st <> Ok st').
Proof.
  intros Hlen.
  assert (Hvalid : forall h m rng, valid vl h m rng = Raise ZeroDivisionError).
  { intros h m rng. unfold valid.
    pose proof (length_iter vl 0) as Hl. rewrite Hlen in Hl.
    destruct (iter vl 0); [|discriminate]. cbn [valid_loop mbind result_bind].
    by rewrite Hlen. }
  split; [exact Hvalid|].
  intros cfg tl step st st' Hfire Hstep.
  apply train_step_inv in Hstep as (batch & it & passes & rng' & _ & Hval & _).
  unfold validation_block in Hval.
  destruct (valid_steps cfg =? 0); [discriminate|].
  rewrite Hfire, Hvalid in Hval. discriminate.
Qed.

Lemma validation_needs_a_batch_witness :
  loader_len (toy_loader 1 2 false) = 0%nat /\
  valid (H := toy_external) (toy_loader 1 2 false) toy_heap toy_model 0
  = Raise ZeroDivisionError.
Proof.
  exact (conj eq_refl (proj1 (validation_needs_a_batch (H := toy_external)
           (toy_loader 1 2 false) eq_refl) toy_heap toy_model 0%nat)).
Defined.

Lemma Qdiv_unit_range (a b : Z) :
  0 <= a <= b -> (0 <= inject_Z a / inject_Z b <= 1)%Q.
Proof.
  intros Hab. destruct (Z.eq_dec b 0) as [->|Hb].
  - assert (a = 0) as -> by lia. split; [apply Qle_refl|discriminate].
  - assert (Hpos : (0 < inject_Z b)%Q) by (change 0%Q with (inject_Z 0); rewrite <- Zlt_Qlt; lia).
    split.
    + apply Qle_shift_div_l; [exact Hpos|]. rewrite Qmult_0_l.
      change 0%Q with (inject_Z 0). rewrite <- Zle_Qle. lia.
    + apply Qle_shift_div_r; [exact Hpos|]. rewrite Qmult_1_l.
      rewrite <- Zle_Qle. lia.
Qed.

Lemma batch_accuracy_range (preds : list nat) (labels : list Z) :
  (0 <= batch_accuracy preds labels <= 1)%Q.
Proof.
  unfold batch_accuracy. apply Qdiv_unit_range. split; [lia|].
  apply inj_le. etrans; [apply length_filter|].
  rewrite length_zip_with. lia.
Qed.

Lemma model_fn_accuracy_range `{External} (batch : list mel * list Z) (h : heap)
    (m : Classifier) (loss accuracy : Q) (h' : heap) :
  model_fn batch h m = Ok ((loss, accuracy), h') -> (0 <= accuracy <= 1)%Q.
Proof.
  intros Hfn. apply model_fn_Ok in Hfn as (_ & -> & _). apply batch_accuracy_range.
Qed.

Lemma valid_loop_range `{External} (s : Subset) (it : list (list nat))
    (acc : Q) (h : heap) (m : Classifier) (rng : nat) (acc' : Q) (h' : heap) (rng' : nat) :
  valid_loop s it acc h m rng = Ok (acc', h', rng') ->
  (acc <= acc' <= acc + inject_Z (Z.of_nat (length it)))%Q.
Proof.
  revert acc h rng. induction it as [|indices it IH]; intros acc h rng Hloop.
  - injection Hloop as <- _ _. cbn. rewrite Qplus_0_r. split; apply Qle_refl.
  - cbn [valid_loop] in Hloop.
    destruct (fetch s rng indices) as [batch|e]; [|discriminate].
    cbn [mbind result_bind] in Hloop.
    destruct (model_fn batch h m) as [[[loss a] h1]|e] eqn:Hfn; [|discriminate].
    cbn [mbind result_bind] in Hloop.
    pose proof (model_fn_accuracy_range _ _ _ _ _ _ Hfn) as Hr.
    apply IH in Hloop. cbn [length].
    rewrite Nat2Z.inj_succ, <- Z.add_1_l, inject_Z_plus.
    destruct Hloop as [Hlo Hhi]. destruct Hr as [Ha0 Ha1]. split.
    + eapply Qle_trans; [|exact Hlo].
      rewrite <- (Qplus_0_r acc) at 1. apply Qplus_le_r. exact Ha0.
    + eapply Qle_trans; [exact Hhi|].
      rewrite Qplus_assoc. apply Qplus_le_l. apply Qplus_le_r. exact Ha1.
Qed.

Lemma valid_range `{External} (vl : DataLoader Subset) (h : heap) (m : Classifier)
    (rng : nat) (acc : Q) (r : heap * Classifier * nat) :
  valid vl h m rng = Ok (acc, r) -> (0 <= acc <= 1)%Q.
Proof.
  intros Hv. unfold valid in Hv.
  destruct (valid_loop _ _ _ _ _ _) as [[[a h1] rng1]|e] eqn:Hloop; [|discriminate].
  cbn [mbind result_bind] in Hv.
  destruct (Nat.eqb_spec (loader_len vl) 0) as [?|Hne]; [discriminate|].
  injection Hv as <- _.
  apply valid_loop_range in Hloop. rewrite length_iter, Qplus_0_l in Hloop.
  assert (Hpos : (0 < inject_Z (Z.of_nat (loader_len vl)))%Q).
  { change 0%Q with (inject_Z 0). rewrite <- Zlt_Qlt. lia. }
  destruct Hloop as [Hlo Hhi]. split.
  - apply Qle_shift_div_l; [exact Hpos|]. by rewrite Qmult_0_l.
  - apply Qle_shift_div_r; [exact Hpos|]. by rewrite Qmult_1_l.
Qed.

(** X8. The accuracy [valid] returns is a mean of batch accuracies and lies in
    [0, 1]; hence a validation that runs while the best accuracy is still
    negative (the run starts at -1) always records a best checkpoint. *)
Theorem valid_accuracy_range `{External} (vl : DataLoader Subset) :
  (forall h m rng acc r,
     valid vl h m rng = Ok (acc, r) -> (0 <= acc <= 1)%Q) /\
  (forall cfg step h m rng best sd h' m' rng' best' sd',
     (best < 0)%Q -> (step + 1) mod valid_steps cfg = 0 ->
     validation_block cfg vl step h m rng best sd = Ok (h', m', rng', best', sd') ->
     sd' = Some (state_dict m) /\ (0 <= best' <= 1)%Q).
Proof.
  assert (Hrange : forall h m rng acc r,
     valid vl h m rng = Ok (acc, r) -> (0 <= acc <= 1)%Q)
    by (intros h m rng acc r; apply valid_range).
  split; [exact Hrange|].
  intros cfg step h m rng best sd h' m' rng' best' sd' Hneg Hfire Hval.
  unfold validation_block in Hval.
  destruct (valid_steps cfg =? 0); [discriminate|]. rewrite Hfire in Hval.
  cbn [Z.eqb] in Hval.
  destruct (valid vl h m rng) as [[acc [[h1 m1] rng1]]|e] eqn:Hv; [|discriminate].
  cbn [mbind result_bind] in Hval.
  pose proof (Hrange _ _ _ _ _ Hv) as [Hlo Hhi].
  apply valid_frame in Hv as [_ ->].
  assert (Hlt : Qltb best acc = true).
  { unfold Qltb. apply negb_true_iff. destruct (Qle_bool acc best) eqn:Hle; [|done].
    apply Qle_bool_iff in Hle. exfalso.
    apply (Qlt_irrefl 0). eapply Qle_lt_trans; [exact Hlo|].
    eapply Qle_lt_trans; [exact Hle|exact Hneg]. }
  rewrite Hlt in Hval. injection Hval as _ _ _ <- <-. done.
Qed.

Lemma train_step_state_dict `{External} (cfg : config) (tl vl : DataLoader Subset)
    (step : Z) (st st' : train_state) :
  train_step cfg tl vl step st = Ok st' ->
  state_dict (st_model st') = state_dict (st_model st).
Proof.
  intros Hstep.
  apply train_step_inv in Hstep as (batch & it & passes & rng' & _ & Hval & _).
  by apply validation_block_inv in Hval as (_ & [->| [_ ->]] & _).
Qed.

Lemma train_loop_alias `{External} (cfg : config) (tl vl : DataLoader Subset)
    (n : nat) (st0 st : train_state) :
  best_state_dict st0 = None ->
  train_loop cfg tl vl n st0 = Ok st ->
  state_dict (st_model st) = state_dict (st_model st0) /\
  (forall sd, best_state_dict st = Some sd -> sd = state_dict (st_model st0)).
Proof.
  intros Hbest0. revert st. induction n as [|n IH]; intros st Hloop.
  - injection Hloop as <-. split; [done|]. rewrite Hbest0. discriminate.
  - apply train_loop_S in Hloop as (st1 & Hst1 & Hstep).
    destruct (IH st1 Hst1) as [IHsd IHbest].
    pose proof (train_step_state_dict _ _ _ _ _ _ Hstep) as Hsd.
    split; [congruence|]. intros sd Hsome.
    destruct (train_step_best _ _ _ _ _ _ Hstep) as [[_ Heq]|(_ & _ & Heq)].
    + apply IHbest. congruence.
    + congruence.
Qed.

(** X9. The best checkpoint is never a copy: in a run that starts without one,
    [best_state_dict] is always the list of references to the model's own
    tensors, and every file a step writes holds the values those tensors have
    at the end of that step, whenever the best accuracy was recorded. *)
Theorem saved_checkpoint_is_live_model `{External} (cfg : config)
    (tl vl : DataLoader Subset) (n : nat) (st0 st st' : train_state) :
  best_state_dict st0 = None ->
  train_loop cfg tl vl n st0 = Ok st ->
  train_step cfg tl vl (Z.of_nat n) st = Ok st' ->
  (forall sd, best_state_dict st' = Some sd -> sd = state_dict (st_model st')) /\
  (st_saved st' = st_saved st \/
   st_saved st' = st_saved st
     ++ [(save_path cfg, deref (st_heap st') (state_dict (st_model st')));
         (archive_path (Z.of_nat n),
          deref (st_heap st') (state_dict (st_model st')))]).
Proof.
  intros Hbest0 Hloop Hstep.
  assert (Hloop' : train_loop cfg tl vl (S n) st0 = Ok st').
  { cbn [train_loop]. by rewrite Hloop. }
  destruct (train_loop_alias cfg tl vl (S n) st0 st' Hbest0 Hloop') as [Hsd Halias].
  split; [intros sd Hsome; rewrite Hsd; by apply Halias|].
  apply train_step_inv in Hstep as (batch & it & passes & rng' & _ & _ & Hsave & _).
  apply save_block_inv in Hsave as [(_ & d & Hd & _ & Hs)|(_ & _ & Hs)]; [|by left].
  right. rewrite Hs, Hsd. by rewrite (Halias d Hd).
Qed.

Lemma saved_checkpoint_is_live_model_witness :
  best_state_dict toy_state = None /\
  train_loop (H := toy_external) toy_config (toy_loader 2 1 true)
    (toy_loader 2 1 false) 1 toy_state = Ok (toy_after 1) /\
  train_step (H := toy_external) toy_config (toy_loader 2 1 true)
    (toy_loader 2 1 false) (Z.of_nat 1) (toy_after 1) = Ok (toy_after 2) /\
  (forall sd, best_state_dict (toy_after 2) = Some sd ->
     sd = state_dict (st_model (toy_after 2))) /\
  (st_saved (toy_after 2) = st_saved (toy_after 1) \/
   st_saved (toy_after 2) = st_saved (toy_after 1)
     ++ [(save_path toy_config,
          deref (st_heap (toy_after 2)) (state_dict (st_model (toy_after 2))));
         (archive_path (Z.of_nat 1),
          deref (st_heap (toy_after 2)) (state_dict (st_model (toy_after 2))))]).
Proof.
  assert (H1 : train_loop (H := toy_external) toy_config (toy_loader 2 1 true)
                 (toy_loader 2 1 false) 1 toy_state = Ok (toy_after 1))
    by (vm_compute; reflexivity).
  assert (H2 : train_step (H := toy_external) toy_config (toy_loader 2 1 true)
                 (toy_loader 2 1 false) (Z.of_nat 1) (toy_after 1) = Ok (toy_after 2))
    by (vm_compute; reflexivity).
  exact (conj eq_refl (conj H1 (conj H2
    (saved_checkpoint_is_live_model (H := toy_external) toy_config
       (toy_loader 2 1 true) (toy_loader 2 1 false) 1 toy_state
       (toy_after 1) (toy_after 2) eq_refl H1 H2)))).
Defined.

(** X10. The scheduler epoch counts the steps: after n steps it has advanced by
    n, so the update of step k (counted from 0) is made at the rate of
    scheduler epoch k, and a run built by the entry point, which starts at
    epoch 0, makes its first update at rate 0 when warmup_steps > 0. *)
Theorem scheduler_epoch_counts_steps `{External} (cfg : config)
    (tl vl : DataLoader Subset) (n : nat) (st0 st : train_state) :
  train_loop cfg tl vl n st0 = Ok st ->
  st_last_epoch st = st_last_epoch st0 + Z.of_nat n /\
  (forall ds files base_lr,
     train_init cfg ds files = Ok (tl, vl, st0) ->
     st_last_epoch st = Z.of_nat n /\
     (0 < warmup_steps cfg ->
      scheduled_lr base_lr (warmup_steps cfg) (total_steps cfg) (st_last_epoch st0)
      = 0%R)).
Proof.
  intros Hloop.
  assert (Hcount : st_last_epoch st = st_last_epoch st0 + Z.of_nat n).
  { revert st Hloop. induction n as [|n IH]; intros st Hloop.
    - injection Hloop as <-. lia.
    - apply train_loop_S in Hloop as (st1 & Hst1 & Hstep).
      apply train_step_inv in Hstep as (batch & it & passes & rng' & _ & _ & _ & He).
      rewrite He, (IH st1 Hst1). lia. }
  split; [exact Hcount|].
  intros ds files base_lr Hinit.
  assert (H0 : st_last_epoch st0 = 0).
  { unfold train_init in Hinit.
    destruct (get_dataloader ds (cfg_batch_size cfg)) as [[tl' vl']|e]; [|discriminate].
    cbn [mbind result_bind] in Hinit.
    destruct (Classifier_init 320 (speaker_num ds) (4 # 10) []) as [h m].
    destruct (torch_load files "model.ckpt") as [c|e]; [|discriminate].
    cbn [mbind result_bind] in Hinit.
    destruct (load_state_dict h m c) as [h'|e]; [|discriminate].
    cbn [mbind result_bind] in Hinit. by injection Hinit as _ _ <-. }
  split; [lia|]. intros Hws. rewrite H0. unfold scheduled_lr.
  rewrite lr_lambda_warmup by lia. unfold Rdiv. by rewrite !Rmult_0_l, Rmult_0_r.
Qed.

Lemma scheduler_epoch_counts_steps_witness :
  train_loop (H := toy_external) toy_config (toy_loader 2 1 true)
    (toy_loader 2 1 false) 2 toy_state = Ok (toy_after 2) /\
  st_last_epoch (toy_after 2) = st_last_epoch toy_state + Z.of_nat 2.
Proof.
  assert (H2 : train_loop (H := toy_external) toy_config (toy_loader 2 1 true)
                 (toy_loader 2 1 false) 2 toy_state = Ok (toy_after 2))
    by (vm_compute; reflexivity).
  exact (conj H2 (proj1 (scheduler_epoch_counts_steps (H := toy_external) _ _ _ _ _ _ H2))).
Defined.

(** ** Shapes are kept by every in-place write *)

Lemma shape_lookup_total (h : heap) (l : loc) :
  shape (h !!! l) = (map shape h) !!! l.
Proof.
  unfold heap, loc in *. rewrite !list_lookup_total_alt, lookup_map.
  destruct (h !! l); reflexivity.
Qed.

Lemma map_insert {A B : Type} (f : A -> B) (l : list A) (i : nat) (x : A) :
  map f (<[i:=x]> l) = <[i:=f x]> (map f l).
Proof. apply list_fmap_insert. Qed.

Lemma shapes_write_entries (h : heap) (l : loc) (d : list Q) :
  map shape (write_entries h l d) = map shape h.
Proof.
  unfold write_entries, heap, loc in *.
  destruct (h !! l) as [t|] eqn:Hl; [|done].
  rewrite map_insert. apply list_insert_id.
  rewrite lookup_map, Hl. reflexivity.
Qed.

Lemma shapes_write_all (h : heap) (ls : list loc) (ds : list (list Q)) :
  map shape (write_all h ls ds) = map shape h.
Proof.
  unfold write_all. generalize (zip ls ds). intros ps. revert h.
  induction ps as [|[l d] ps IH]; intros h; [done|].
  cbn [foldl]. by rewrite IH, shapes_write_entries.
Qed.

Lemma shapes_call_model `{External} (h : heap) (m : Classifier) (mels : tensor) :
  map shape (call_model h m mels).2 = map shape h.
Proof.
  unfold call_model. destruct (training m); cbn [snd]; [apply shapes_write_all|done].
Qed.

Lemma shapes_update_block `{External} (batch : list mel * list Z) (h : heap)
    (m : Classifier) (last_epoch : Z) (opt : optimizer_state) :
  map shape (update_block batch h m last_epoch opt).1 = map shape h.
Proof.
  unfold update_block, optimizer_block.
  destruct (train_update _ _ _ _) as [opt' entries]. cbn [fst].
  by rewrite shapes_write_all, shapes_call_model.
Qed.

Lemma shapes_load_state_dict (h h' : heap) (m : Classifier) (c : checkpoint) :
  load_state_dict h m c = Ok h' -> map shape h' = map shape h.
Proof.
  unfold load_state_dict. destruct (_ && _); [|discriminate].
  intros [= <-]. apply shapes_write_all.
Qed.

Lemma forward_width_shapes `{External} (h h0 : heap) (m : Classifier) (mels : tensor) :
  map shape h = map shape h0 ->
  Forall (fun row => length row = dim (h0 !!! weight (pred_layer m)) 0)
         (forward h m mels).
Proof.
  intros Hs. eapply Forall_impl; [apply forward_width|].
  intros row ->. unfold dim. by rewrite !shape_lookup_total, Hs.
Qed.

(** X11. Training overwrites tensor entries and never a shape: after any number
    of steps every tensor has the shape it started with, and the model of a
    run built by the entry point still returns one row of exactly 600 logits
    per item, with its arg-max below 600. *)
Theorem training_keeps_shapes `{External} (cfg : config)
    (tl vl : DataLoader Subset) (n : nat) (st0 st : train_state) :
  train_loop cfg tl vl n st0 = Ok st ->
  map shape (st_heap st) = map shape (st_heap st0) /\
  state_dict (st_model st) = state_dict (st_model st0) /\
  (forall ds files mels,
     train_init cfg ds files = Ok (tl, vl, st0) ->
     length (forward (st_heap st) (st_model st) mels) = dim mels 0 /\
     Forall (fun row => length row = 600%nat /\ (argmax row < 600)%nat)
       (forward (st_heap st) (st_model st) mels)).
Proof.
  intros Hloop.
  assert (Hinv : map shape (st_heap st) = map shape (st_heap st0)
                 /\ state_dict (st_model st) = state_dict (st_model st0)).
  { revert st Hloop. induction n as [|n IH]; intros st Hloop.
    - by injection Hloop as <-.
    - apply train_loop_S in Hloop as (st1 & Hst1 & Hstep).
      destruct (IH st1 Hst1) as [IHs IHd].
      pose proof (train_step_state_dict _ _ _ _ _ _ Hstep) as Hd.
      apply train_step_inv in Hstep as (batch & it & passes & rng' & _ & Hval & _).
      apply validation_block_inv in Hval as (Hh & _).
      split; [|congruence]. rewrite Hh, shapes_update_block. exact IHs. }
  destruct Hinv as [Hshapes Hsd]. split; [exact Hshapes|]. split; [exact Hsd|].
  intros ds files mels Hinit. split; [apply length_forward|].
  assert (Hpred : pred_layer (st_model st) = pred_layer (st_model st0)).
  { unfold state_dict in Hsd. apply (f_equal (@rev _)) in Hsd.
    rewrite !rev_app_distr in Hsd. cbn in Hsd.
    destruct (pred_layer (st_model st)), (pred_layer (st_model st0)).
    cbn in Hsd. congruence. }
  assert (Hw : shape (st_heap st0 !!! weight (pred_layer (st_model st0))) = [600%nat; 320%nat]).
  { unfold train_init in Hinit.
    destruct (get_dataloader ds (cfg_batch_size cfg)) as [[tl' vl']|e]; [|discriminate].
    cbn [mbind result_bind] in Hinit.
    pose proof (Classifier_init_pred_weight 320 (speaker_num ds) (4 # 10) []) as Hw.
    destruct (Classifier_init 320 (speaker_num ds) (4 # 10) []) as [h m].
    cbn [fst snd] in Hw.
    destruct (torch_load files "model.ckpt") as [c|e]; [|discriminate].
    cbn [mbind result_bind] in Hinit.
    destruct (load_state_dict h m c) as [h'|e] eqn:Hload; [|discriminate].
    cbn [mbind result_bind] in Hinit. injection Hinit as _ _ <-.
    cbn [st_heap st_model]. apply shapes_load_state_dict in Hload.
    by rewrite shape_lookup_total, Hload, <- shape_lookup_total. }
  eapply Forall_impl; [apply (forward_width_shapes _ (st_heap st0)), Hshapes|].
  intros row Hrow. cbn beta in Hrow. rewrite Hpred in Hrow.
  unfold dim in Hrow. rewrite Hw in Hrow. cbn [nth] in Hrow.
  split; [exact Hrow|]. rewrite <- Hrow. apply argmax_bound.
  intros ->. discriminate.
Qed.

Lemma training_keeps_shapes_witness :
  train_loop (H := toy_external) toy_config (toy_loader 2 1 true)
    (toy_loader 2 1 false) 2 toy_state = Ok (toy_after 2) /\
  map shape (st_heap (toy_after 2)) = map shape (st_heap toy_state) /\
  state_dict (st_model (toy_after 2)) = state_dict (st_model toy_state).
Proof.
  assert (H2 : train_loop (H := toy_external) toy_config (toy_loader 2 1 true)
                 (toy_loader 2 1 false) 2 toy_state = Ok (toy_after 2))
    by (vm_compute; reflexivity).
  pose proof (training_keeps_shapes (H := toy_external) _ _ _ _ _ _ H2) as (Ha & Hb & _).
  exact (conj H2 (conj Ha Hb)).
Defined.

(** ** Further properties of the schedule *)

(** X12. From step 0 on the multiplier stays within [0, 1], whatever the warm-up
    and total step counts are. *)
Theorem lr_lambda_range (warmup_steps total_steps step : Z) :
  (0 <= step)%Z ->
  (0 <= lr_lambda warmup_steps total_steps 0.5 step <= 1)%R.
Proof.
  intros Hstep. destruct (Z_lt_le_dec step warmup_steps) as [Hlt|Hge].
  - rewrite lr_lambda_warmup by exact Hlt. rewrite Z.max_r by lia.
    assert (Hw : (0 < IZR warmup_steps)%R) by (apply IZR_lt; lia).
    assert (Hs : (0 <= IZR step <= IZR warmup_steps)%R)
      by (split; apply IZR_le; lia).
    split.
    + apply Rmult_le_pos; [lra|]. apply Rlt_le, Rinv_0_lt_compat, Hw.
    + apply (Rmult_le_reg_r (IZR warmup_steps)); [exact Hw|].
      unfold Rdiv. rewrite Rmult_assoc, Rinv_l by lra. lra.
  - rewrite lr_lambda_decay by exact Hge. split; [apply Rmax_l|].
    apply Rmax_lub; [lra|].
    match goal with |- context [cos ?x] => pose proof (COS_bound x) as [_ Hc] end.
    lra.
Qed.

Lemma lr_lambda_range_witness :
  (0 <= 55)%Z /\ (0 <= lr_lambda 10 100 0.5 55 <= 1)%R.
Proof.
  assert (H : (0 <= 55)%Z) by lia.
  exact (conj H (lr_lambda_range 10 100 55 H)).
Defined.

(** X13. Half-way through the decay the multiplier is one half. *)
Theorem lr_lambda_half_way (warmup_steps k : Z) :
  (0 < k)%Z ->
  lr_lambda warmup_steps (warmup_steps + 2 * k) 0.5 (warmup_steps + k) = 0.5%R.
Proof.
  intros Hk. rewrite lr_lambda_decay by lia.
  replace (warmup_steps + k - warmup_steps)%Z with k by lia.
  replace (warmup_steps + 2 * k - warmup_steps)%Z with (2 * k)%Z by lia.
  rewrite Z.max_r by lia. rewrite mult_IZR.
  assert (Hk' : IZR k <> 0%R) by (apply not_0_IZR; lia).
  assert (Hhalf : (IZR k / (2 * IZR k) = 1 / 2)%R) by (field; exact Hk').
  rewrite Hhalf. replace (PI * 0.5 * 2 * (1 / 2))%R with (PI / 2)%R by lra.
  rewrite cos_PI2. rewrite Rmax_right; lra.
Qed.

Lemma lr_lambda_half_way_witness :
  (0 < 45)%Z /\ lr_lambda 10 (10 + 2 * 45) 0.5 (10 + 45) = 0.5%R.
Proof.
  assert (H : (0 < 45)%Z) by lia.
  exact (conj H (lr_lambda_half_way 10 45 H)).
Defined.

(** ** Building the dataset *)

Lemma init_speaker_Ok (speaker2id : gmap string Z) (speaker : string) (id : Z)
    (utterances : list utterance) (data : list record) :
  speaker2id !! speaker = Some id ->
  init_speaker speaker2id speaker utterances data
  = Ok (data ++ map (fun u => (feature_path u, id)) utterances).
Proof.
  intros Hid. revert data. induction utterances as [|u rest IH]; intros data.
  - cbn. by rewrite app_nil_r.
  - cbn [init_speaker]. rewrite Hid, IH. cbn [map]. by rewrite <- app_assoc.
Qed.

Lemma init_speaker_missing (speaker2id : gmap string Z) (speaker : string)
    (utterances : list utterance) (data : list record) :
  speaker2id !! speaker = None -> utterances <> [] ->
  init_speaker speaker2id speaker utterances data = Raise KeyError.
Proof.
  intros Hid Hne. destruct utterances; [done|]. cbn [init_speaker]. by rewrite Hid.
Qed.

Lemma init_data_spec (speaker2id : gmap string Z)
    (metadata : list (string * list utterance)) (data : list record) :
  (Forall (fun '(speaker, utterances) =>
             utterances <> [] -> is_Some (speaker2id !! speaker)) metadata ->
   init_data speaker2id metadata data = Ok (data ++ records_of speaker2id metadata)) /\
  (Exists (fun '(speaker, utterances) =>
             utterances <> [] /\ speaker2id !! speaker = None) metadata ->
   init_data speaker2id metadata data = Raise KeyError).
Proof.
  revert data. induction metadata as [|[speaker utterances] rest IH]; intros data.
  - split; [intros _; cbn; by rewrite app_nil_r|intros Hex; by apply Exists_nil in Hex].
  - cbn [init_data]. unfold records_of. cbn [flat_map]. fold (records_of speaker2id rest).
    destruct (speaker2id !! speaker) as [id|] eqn:Hid.
    + rewrite (init_speaker_Ok _ _ id _ _ Hid). cbn [mbind result_bind default].
      split.
      * intros Hall. apply Forall_cons in Hall as [_ Hall].
        rewrite (proj1 (IH _) Hall). by rewrite <- app_assoc.
      * intros Hex. apply Exists_cons in Hex as [[_ Hnone]|Hex]; [congruence|].
        by apply IH.
    + destruct utterances as [|u us].
      * cbn [init_speaker mbind result_bind map app]. split.
        -- intros Hall. apply Forall_cons in Hall as [_ Hall].
           by rewrite (proj1 (IH _) Hall).
        -- intros Hex. apply Exists_cons in Hex as [[Hne _]|Hex]; [done|].
           by apply IH.
      * rewrite init_speaker_missing by done. cbn [mbind result_bind]. split; [|done].
        intros Hall. apply Forall_cons in Hall as [Hsome _].
        destruct Hsome as [? ?]; [done|congruence].
Qed.

(** X14. The constructor builds one record per utterance of the metadata, in the
    metadata's order, each with the id of its speaker, and counts the
    speakers; it raises KeyError when a speaker with at least one utterance
    has no id in the mapping. *)
Theorem myDataset_init_records (files : gmap string mel)
    (speaker2id : gmap string Z) (metadata : list (string * list utterance))
    (segment_len : Z) :
  (Forall (fun '(speaker, utterances) =>
             utterances <> [] -> is_Some (speaker2id !! speaker)) metadata ->
   exists ds,
     myDataset_init files speaker2id metadata segment_len = Ok ds /\
     ds_data ds = records_of speaker2id metadata /\
     length (ds_data ds) = list_sum (map (fun p => length p.2) metadata) /\
     speaker_num ds = length metadata /\
     Forall (fun r : record => exists speaker utterances,
               (speaker, utterances) ∈ metadata /\
               speaker2id !! speaker = Some r.2) (ds_data ds)) /\
  (Exists (fun '(speaker, utterances) =>
             utterances <> [] /\ speaker2id !! speaker = None) metadata ->
   myDataset_init files speaker2id metadata segment_len = Raise KeyError).
Proof.
  unfold myDataset_init. split.
  - intros Hall. rewrite (proj1 (init_data_spec _ _ []) Hall).
    cbn [mbind result_bind app]. eexists. split; [reflexivity|].
    cbn [ds_data speaker_num]. split; [reflexivity|]. split; [|split; [reflexivity|]].
    + clear Hall. induction metadata as [|[speaker utterances] rest IH]; [reflexivity|].
      unfold records_of in *. cbn [flat_map map list_sum snd].
      rewrite length_app, length_map.
      change (list_sum (length utterances
                :: map (fun p : string * list utterance => length p.2) rest))
        with (length utterances
              + list_sum (map (fun p : string * list utterance => length p.2) rest))%nat.
      f_equal. exact IH.
    + induction metadata as [|[speaker utterances] rest IH]; [constructor|].
      apply Forall_cons in Hall as [Hsome Hall].
      unfold records_of in *. cbn [flat_map]. apply Forall_app. split.
      * apply Forall_map, Forall_forall. intros u Hu.
        destruct Hsome as [id Hid]; [intros ->; by apply elem_of_nil in Hu|].
        exists speaker, utterances. split; [left|]. cbn. by rewrite Hid.
      * eapply Forall_impl; [apply IH, Hall|].
        intros r (s & us & Hin & Hid). exists s, us. split; [by right|done].
  - intros Hex. by rewrite (proj2 (init_data_spec _ _ []) Hex).
Qed.

Lemma myDataset_init_records_witness :
  exists ds,
    myDataset_init ∅ example_speaker2id example_metadata 128 = Ok ds /\
    length (ds_data ds) = 5%nat /\
    map snd (ds_data ds) = [0; 0; 0; 1; 1] /\
    speaker_num ds = 2%nat.
Proof.
  assert (Hall : Forall (fun '(speaker, utterances) =>
             utterances <> [] -> is_Some (example_speaker2id !! speaker))
            example_metadata).
  { repeat constructor; intros _; vm_compute; eauto. }
  destruct (proj1 (myDataset_init_records ∅ example_speaker2id example_metadata 128) Hall)
    as (ds & Hds & Hdata & Hlen & Hnum & _).
  exists ds. split; [exact Hds|]. split; [exact Hlen|]. split; [|exact Hnum].
  rewrite Hdata. vm_compute. reflexivity.
Defined.

(** ** Checkpoints: saving and loading *)

Lemma assoc_deref (h : heap) (sd : list (string * loc)) (name : string) (l : loc) :
  NoDup (map fst sd) -> (name, l) ∈ sd -> assoc name (deref h sd) = Some (h !!! l).
Proof.
  unfold assoc, deref. induction sd as [|[n' l'] sd IH]; intros Hnd Hin.
  - by apply elem_of_nil in Hin.
  - cbn [map fst] in Hnd. apply NoDup_cons in Hnd as [Hfresh Hnd].
    cbn [map list_find]. cbn [fst].
    destruct (decide (n' = name)) as [->|Hne].
    + apply elem_of_cons in Hin as [[= <-]|Hin]; [reflexivity|].
      exfalso. apply Hfresh. apply list_elem_of_fmap. by exists (name, l).
    + apply elem_of_cons in Hin as [[= ? ?]|Hin]; [congruence|].
      specialize (IH Hnd Hin).
      destruct (list_find _ _) as [[i p]|]; [|discriminate].
      cbn in IH |- *. exact IH.
Qed.

Lemma write_entries_same (h : heap) (l : loc) :
  write_entries h l (data (h !!! l)) = h.
Proof.
  unfold write_entries, heap, loc in *.
  destruct (h !! l) as [t|] eqn:Hl; [|done].
  rewrite (list_lookup_total_correct _ _ _ Hl).
  apply list_insert_id. rewrite Hl. by destruct t.
Qed.

Lemma write_all_same (h : heap) (sd : list (string * loc)) :
  write_all h (map snd sd) (map (fun p => data (h !!! p.2)) sd) = h.
Proof.
  unfold write_all. induction sd as [|[n l] sd IH]; [done|].
  cbn [map snd zip zip_with foldl]. by rewrite write_entries_same.
Qed.

(** X15. Loading is strict, and loading what was just saved changes nothing:
    a checkpoint with a name the module does not have, or without a tensor
    of the module's shape for one of the module's names, is refused with
    RuntimeError; a successful load keeps the shape of every tensor; and the
    checkpoint read off the live tensors loads back into the very same heap
    (when the module's tensor names are distinct). *)
Theorem load_state_dict_strict (h : heap) (m : Classifier) (c : checkpoint) :
  (forall h', load_state_dict h m c = Ok h' ->
     map shape h' = map shape h /\
     Forall (fun p => p.1 ∈ map fst (state_dict m)) c /\
     Forall (fun p => exists t, assoc p.1 c = Some t /\ shape t = shape (h !!! p.2))
            (state_dict m)) /\
  (forall e, load_state_dict h m c = Raise e -> e = RuntimeError) /\
  (NoDup (map fst (state_dict m)) ->
   load_state_dict h m (deref h (state_dict m)) = Ok h).
Proof.
  split; [|split].
  - intros h' Hload. split; [by eapply shapes_load_state_dict|].
    unfold load_state_dict in Hload.
    destruct (bool_decide _) eqn:Hnames; [|discriminate].
    destruct (bool_decide (Forall _ (state_dict m))) eqn:Hshapes; [|discriminate].
    apply bool_decide_eq_true in Hnames, Hshapes. split; [exact Hnames|].
    eapply Forall_impl; [exact Hshapes|]. intros [n l] Hs. cbn in Hs |- *.
    destruct (assoc n c) as [t|]; [|discriminate]. exists t. split; [done|].
    by injection Hs.
  - intros e. unfold load_state_dict. destruct (_ && _); [discriminate|].
    by intros [= <-].
  - intros Hnd. unfold load_state_dict.
    revert Hnd. generalize (state_dict m). intros sd Hnd.
    rewrite bool_decide_eq_true_2.
    2:{ unfold deref. apply Forall_map, Forall_forall. intros [n l] Hin. cbn.
        apply list_elem_of_fmap. by exists (n, l). }
    rewrite bool_decide_eq_true_2.
    2:{ apply Forall_forall. intros [n l] Hin. cbn.
        by rewrite (assoc_deref h _ n l Hnd Hin). }
    cbn [andb]. f_equal.
    rewrite <- (write_all_same h sd) at 2. f_equal.
    apply map_ext_in. intros [n l] Hin. apply list_elem_of_In in Hin. cbn.
    by rewrite (assoc_deref h _ n l Hnd Hin).
Qed.

Lemma load_state_dict_strict_witness :
  NoDup (map fst (state_dict toy_model)) /\
  load_state_dict toy_heap toy_model (deref toy_heap (state_dict toy_model))
  = Ok toy_heap.
Proof.
  assert (Hnd : NoDup (map fst (state_dict toy_model))).
  { apply (bool_decide_unpack (NoDup (map fst (state_dict toy_model)))).
    vm_compute. exact I. }
  exact (conj Hnd (proj2 (proj2 (load_state_dict_strict toy_heap toy_model
                                   (deref toy_heap (state_dict toy_model)))) Hnd)).
Defined.

(** ** Step periods *)

(** X16. A step returns only when both periods are non-zero.  Once the
    step has drawn its batch and [model_fn] has returned on it,
    valid_steps = 0 ends the step in ZeroDivisionError, and so does
    save_steps = 0 on a step that does not validate.  A batch with a label
    that is no class index ends the step earlier, in IndexError. *)
Theorem zero_period_raises `{External} (cfg : config) (tl vl : DataLoader Subset)
    (step : Z) (st : train_state) :
  (forall st', train_step cfg tl vl step st = Ok st' ->
     valid_steps cfg <> 0 /\ save_steps cfg <> 0) /\
  (forall batch it passes r,
     next_batch tl (st_rng st) (st_passes st) (train_iterator st)
       = Ok (batch, it, passes) ->
     model_fn batch (st_heap st) (st_model st) = Ok r ->
     valid_steps cfg = 0 -> train_step cfg tl vl step st = Raise ZeroDivisionError) /\
  (forall batch it passes r,
     next_batch tl (st_rng st) (st_passes st) (train_iterator st)
       = Ok (batch, it, passes) ->
     model_fn batch (st_heap st) (st_model st) = Ok r ->
     (step + 1) mod valid_steps cfg <> 0 -> valid_steps cfg <> 0 ->
     save_steps cfg = 0 -> train_step cfg tl vl step st = Raise ZeroDivisionError) /\
  (forall batch it passes,
     next_batch tl (st_rng st) (st_passes st) (train_iterator st)
       = Ok (batch, it, passes) ->
     Exists (fun label =>
               label <> -100 /\
               ~ 0 <= label < Z.of_nat (dim (st_heap st !!! weight (pred_layer (st_model st))) 0))
            batch.2 ->
     train_step cfg tl vl step st = Raise IndexError).
Proof.
  split; [|split; [|split]].
  - intros st' Hstep.
    apply train_step_inv in Hstep as (batch & it & passes & rng' & _ & Hval & Hsave & _).
    unfold validation_block in Hval. unfold save_block in Hsave.
    destruct (Z.eqb_spec (valid_steps cfg) 0); [discriminate|].
    destruct (Z.eqb_spec (save_steps cfg) 0); [discriminate|]. done.
  - intros batch it passes [la h0] Hnext Hfn Hzero. unfold train_step.
    rewrite Hnext. cbn [mbind result_bind]. rewrite Hfn. cbn [mbind result_bind].
    destruct (optimizer_block _ _ _ _ _) as [h opt].
    unfold validation_block. by rewrite Hzero.
  - intros batch it passes [la h0] Hnext Hfn Hskip Hv Hzero. unfold train_step.
    rewrite Hnext. cbn [mbind result_bind]. rewrite Hfn. cbn [mbind result_bind].
    destruct (optimizer_block _ _ _ _ _) as [h opt].
    unfold validation_block.
    destruct (Z.eqb_spec (valid_steps cfg) 0); [done|].
    destruct (Z.eqb_spec ((step + 1) mod valid_steps cfg) 0); [done|].
    cbn [mbind result_bind]. unfold save_block. by rewrite Hzero.
  - intros batch it passes Hnext Hbad. unfold train_step.
    rewrite Hnext. cbn [mbind result_bind].
    assert (Hfn : model_fn batch (st_heap st) (st_model st) = Raise IndexError).
    { unfold model_fn, criterion. destruct batch as [mels labels]. cbn [snd] in Hbad.
      destruct (call_model _ _ _) as [outs h1].
      destruct (forallb _ labels) eqn:Hall; [|reflexivity].
      exfalso. rewrite forallb_forall in Hall.
      apply Exists_exists in Hbad as (label & Hin & Hne & Hout).
      apply list_elem_of_In in Hin. specialize (Hall _ Hin). unfold target_ok in Hall.
      apply orb_true_iff in Hall as [Heq|Hin'].
      - apply Z.eqb_eq in Heq. done.
      - apply andb_true_iff in Hin' as [Hlo Hhi].
        apply Z.leb_le in Hlo. apply Z.ltb_lt in Hhi. lia. }
    by rewrite Hfn.
Qed.

Lemma zero_period_raises_witness :
  valid_steps {| save_path := "model.ckpt"; cfg_batch_size := 1; valid_steps := 0;
                 warmup_steps := 1; total_steps := 2; save_steps := 2 |} = 0 /\
  (exists batch it passes r,
     next_batch (H := toy_external) (toy_loader 2 1 true) (st_rng toy_state)
       (st_passes toy_state) (train_iterator toy_state) = Ok (batch, it, passes) /\
     model_fn (H := toy_external) batch (st_heap toy_state) (st_model toy_state) = Ok r) /\
  train_step (H := toy_external)
    {| save_path := "model.ckpt"; cfg_batch_size := 1; valid_steps := 0;
       warmup_steps := 1; total_steps := 2; save_steps := 2 |}
    (toy_loader 2 1 true) (toy_loader 2 1 false) 0 toy_state
  = Raise ZeroDivisionError.
Proof.
  assert (Hnext : next_batch (H := toy_external) (toy_loader 2 1 true) (st_rng toy_state)
              (st_passes toy_state) (train_iterator toy_state)
            = Ok (([toy_mel], [1]), [[1%nat]], 1%nat))
    by (vm_compute; reflexivity).
  assert (Hfn : exists r, model_fn (H := toy_external) ([toy_mel], [1])
                  (st_heap toy_state) (st_model toy_state) = Ok r)
    by (eexists; vm_compute; reflexivity).
  destruct Hfn as [r Hfn].
  set (cfg := {| save_path := "model.ckpt"; cfg_batch_size := 1; valid_steps := 0;
                 warmup_steps := 1; total_steps := 2; save_steps := 2 |}).
  split; [reflexivity|].
  split; [by exists ([toy_mel], [1]), [[1%nat]], 1%nat, r|].
  exact (proj1 (proj2 (zero_period_raises (H := toy_external) cfg (toy_loader 2 1 true)
                         (toy_loader 2 1 false) 0 toy_state))
           _ _ _ r Hnext Hfn eq_refl).
Defined.

(** ** Collating an inference batch *)

(** X17. [inference_collate_batch] refuses an empty batch (ValueError) and a
    batch whose feature arrays differ in length (RuntimeError, from
    [torch.stack]); otherwise it returns the feature paths in order with a
    tensor of shape (batch size, length, 40).  A batch of one utterance, the
    only kind the inference loader builds, is always accepted. *)
Theorem inference_collate_batch_outcomes (batch : list (string * mel)) :
  (batch = [] -> inference_collate_batch batch = Raise ValueError) /\
  (forall feat_path m rest,
     batch = (feat_path, m) :: rest ->
     Forall (fun p => length p.2 = length m) rest ->
     exists mels,
       inference_collate_batch batch = Ok (map fst batch, mels) /\
       shape mels = [length batch; length m; 40%nat]) /\
  (forall feat_path m rest,
     batch = (feat_path, m) :: rest ->
     Exists (fun p => length p.2 <> length m) rest ->
     inference_collate_batch batch = Raise RuntimeError) /\
  (forall feat_path m,
     batch = [(feat_path, m)] ->
     inference_collate_batch batch = Ok ([feat_path], tensor_of_batch [m])).
Proof.
  split; [by intros ->|]. split; [|split].
  - intros feat_path m rest -> Hall. cbn [inference_collate_batch].
    match goal with |- context [forallb ?f ?l] =>
      assert (Hb : forallb f l = true) end.
    { apply forallb_forall. intros m' Hin. apply in_map_iff in Hin as ([p m''] & <- & Hin).
      apply Nat.eqb_eq. destruct Hin as [[= _ <-]|Hin]; [done|].
      apply list_elem_of_In in Hin. by apply (proj1 (Forall_forall _ _) Hall _ Hin). }
    rewrite Hb. eexists. split; [reflexivity|].
    unfold tensor_of_batch, build3. cbn [shape]. rewrite length_map.
    f_equal. f_equal.
    assert (Hmax : max_len (map snd ((feat_path, m) :: rest)) = length m); [|by rewrite Hmax].
    change (Nat.max (length m) (max_len (map snd rest)) = length m).
    apply Nat.max_l.
    apply max_len_le, Forall_map. eapply Forall_impl; [exact Hall|].
    intros p Hp. cbn beta in Hp |- *. plain_types. by rewrite Hp.
  - intros feat_path m rest -> Hex. cbn [inference_collate_batch].
    match goal with |- context [forallb ?f ?l] =>
      assert (Hb : forallb f l = false) end.
    { apply not_true_is_false. intros Hb.
      apply Exists_exists in Hex as ([p m'] & Hin & Hne).
      assert (Hin' : In m' (map snd ((feat_path, m) :: rest))).
      { right. apply in_map_iff. exists (p, m'). split; [done|]. by apply list_elem_of_In. }
      apply (proj1 (forallb_forall _ _) Hb), Nat.eqb_eq in Hin'. done. }
    by rewrite Hb.
  - intros feat_path m ->. cbn [inference_collate_batch map snd forallb fst].
    by rewrite Nat.eqb_refl.
Qed.

(** ** The entry points and the best checkpoint *)

Lemma get_dataloader_Ok `{External} (ds : myDataset) (bs : nat) :
  bs <> 0%nat -> (2 <= length (ds_data ds))%nat ->
  exists tl vl, get_dataloader ds bs = Ok (tl, vl).
Proof.
  intros Hbs Hn. unfold get_dataloader.
  destruct (Nat.eqb_spec (9 * length (ds_data ds) / 10) 0) as [Hempty|_].
  { apply Nat.div_small_iff in Hempty; lia. }
  destruct (Nat.eqb_spec bs 0) as [?|_]; [done|]. by eexists _, _.
Qed.

Lemma get_dataloader_ValueError `{External} (ds : myDataset) (bs : nat) :
  bs = 0%nat \/ (length (ds_data ds) <= 1)%nat ->
  get_dataloader ds bs = Raise ValueError.
Proof.
  intros Hbad. unfold get_dataloader.
  destruct (Nat.eqb_spec (9 * length (ds_data ds) / 10) 0) as [_|Hfull];
    [reflexivity|].
  destruct (Nat.eqb_spec bs 0) as [_|Hbs]; [reflexivity|].
  destruct Hbad as [?|Hn]; [done|]. exfalso. apply Hfull.
  apply Nat.div_small_iff; lia.
Qed.

(** X20. Neither entry point starts without a checkpoint file.  Training
    builds its loaders first, which fails with ValueError for a batch size
    of 0 or a dataset of at most one utterance; with the loaders built, a
    missing 'model.ckpt' ends the run in FileNotFoundError.  Inference ends
    in FileNotFoundError when model_path is missing.  A run that returns has
    found its file. *)
Theorem entry_points_need_checkpoint `{External} (cfg : config) (ds : myDataset)
    (ids : InferenceDataset) (id2speaker : gmap string string)
    (files : gmap string checkpoint) (model_path : string) :
  (cfg_batch_size cfg = 0%nat \/ (length (ds_data ds) <= 1)%nat ->
   train_main cfg ds files = Raise ValueError) /\
  (cfg_batch_size cfg <> 0%nat -> (2 <= length (ds_data ds))%nat ->
   files !! "model.ckpt"%string = None ->
   train_main cfg ds files = Raise FileNotFoundError) /\
  (files !! model_path = None ->
   inference_main ids id2speaker files model_path = Raise FileNotFoundError) /\
  (forall st, train_main cfg ds files = Ok st ->
     cfg_batch_size cfg <> 0%nat /\ (2 <= length (ds_data ds))%nat /\
     is_Some (files !! "model.ckpt"%string)) /\
  (forall rows, inference_main ids id2speaker files model_path = Ok rows ->
     is_Some (files !! model_path)).
Proof.
  assert (Hbad : cfg_batch_size cfg = 0%nat \/ (length (ds_data ds) <= 1)%nat ->
                 train_main cfg ds files = Raise ValueError).
  { intros Hb. unfold train_main, train_init.
    by rewrite (get_dataloader_ValueError ds _ Hb). }
  assert (Hmiss : cfg_batch_size cfg <> 0%nat -> (2 <= length (ds_data ds))%nat ->
                  files !! "model.ckpt"%string = None ->
                  train_main cfg ds files = Raise FileNotFoundError).
  { intros Hbs Hn Hnone. destruct (get_dataloader_Ok ds _ Hbs Hn) as (tl & vl & Hg).
    unfold train_main, train_init. rewrite Hg. cbn [mbind result_bind].
    destruct (Classifier_init 320 _ _ _) as [h model].
    unfold torch_load. by rewrite Hnone. }
  assert (Hinf : files !! model_path = None ->
                 inference_main ids id2speaker files model_path = Raise FileNotFoundError).
  { intros Hnone. unfold inference_main.
    destruct (Classifier_init 320 _ _ _) as [h model].
    unfold torch_load. by rewrite Hnone. }
  split; [exact Hbad|]. split; [exact Hmiss|]. split; [exact Hinf|]. split.
  - intros st Hrun.
    assert (Hbs : cfg_batch_size cfg <> 0%nat).
    { intros H0. rewrite (Hbad (or_introl H0)) in Hrun. discriminate. }
    assert (Hn : (2 <= length (ds_data ds))%nat).
    { destruct (le_lt_dec (length (ds_data ds)) 1) as [Hle|?]; [|lia].
      rewrite (Hbad (or_intror Hle)) in Hrun. discriminate. }
    split; [exact Hbs|]. split; [exact Hn|].
    destruct (files !! "model.ckpt"%string) as [c|] eqn:Hfile; [by exists c|].
    rewrite (Hmiss Hbs Hn eq_refl) in Hrun. discriminate.
  - intros rows Hrun.
    destruct (files !! model_path) as [c|] eqn:Hfile; [by exists c|].
    rewrite (Hinf eq_refl) in Hrun. discriminate.
Qed.

Lemma entry_points_need_checkpoint_witness :
  cfg_batch_size toy_config <> 0%nat /\
  (2 <= length (ds_data (toy_dataset 128 2)))%nat /\
  (∅ : gmap string checkpoint) !! "model.ckpt"%string = None /\
  train_main (H := toy_external) toy_config (toy_dataset 128 2) ∅
  = Raise FileNotFoundError.
Proof.
  assert (Hbs : cfg_batch_size toy_config <> 0%nat) by discriminate.
  assert (Hn : (2 <= length (ds_data (toy_dataset 128 2)))%nat) by (cbn; lia).
  exact (conj Hbs (conj Hn (conj eq_refl
    (proj1 (proj2 (entry_points_need_checkpoint (H := toy_external) toy_config
       (toy_dataset 128 2) {| inf_dir := ∅; inf_data := [] |} ∅ ∅ "model.ckpt"))
       Hbs Hn eq_refl)))).
Defined.

Lemma train_step_best_range `{External} (cfg : config) (tl vl : DataLoader Subset)
    (step : Z) (st st' : train_state) :
  train_step cfg tl vl step st = Ok st' ->
  (best_accuracy st' = best_accuracy st /\ best_state_dict st' = best_state_dict st)
  \/ (is_Some (best_state_dict st') /\ (0 <= best_accuracy st' <= 1)%Q).
Proof.
  intros Hstep.
  apply train_step_inv in Hstep as (batch & it & passes & rng' & _ & Hval & _ & _).
  unfold validation_block in Hval.
  destruct (valid_steps cfg =? 0); [discriminate|].
  destruct ((step + 1) mod valid_steps cfg =? 0).
  - destruct (valid vl _ _ _) as [[acc [[h1 m1] rng1]]|e] eqn:Hv; [|discriminate].
    cbn [mbind result_bind] in Hval. apply valid_range in Hv.
    destruct (Qltb (best_accuracy st) acc).
    + injection Hval as _ _ _ <- <-. right. split; [by eexists|exact Hv].
    + injection Hval as _ _ _ <- <-. by left.
  - injection Hval as _ _ _ <- <-. by left.
Qed.

(** X21. As long as no validation has improved on the starting accuracy, a run
    has no best checkpoint, its best accuracy is the one it started with, and
    it has written no file; once there is a best checkpoint, the best
    accuracy is a validation accuracy and lies in [0, 1]. *)
Theorem no_checkpoint_before_first_best `{External} (cfg : config)
    (tl vl : DataLoader Subset) (n : nat) (st0 st : train_state) :
  best_state_dict st0 = None -> st_saved st0 = [] ->
  train_loop cfg tl vl n st0 = Ok st ->
  (best_state_dict st = None ->
     best_accuracy st = best_accuracy st0 /\
     st_files st = st_files st0 /\ st_saved st = []) /\
  (is_Some (best_state_dict st) -> (0 <= best_accuracy st <= 1)%Q).
Proof.
  intros Hsd0 Hsaved0. revert st. induction n as [|n IH]; intros st Hloop.
  - injection Hloop as <-. split; [done|]. rewrite Hsd0. by intros [? ?].
  - apply train_loop_S in Hloop as (st1 & Hst1 & Hstep).
    destruct (IH _ Hst1) as [IHnone IHsome].
    pose proof (train_step_best_range _ _ _ _ _ _ Hstep) as Hbest.
    apply train_step_inv in Hstep as (batch & it & passes & rng' & _ & _ & Hsave & _).
    split.
    + intros Hnone. destruct Hbest as [[Hacc Hsd]|[[sd Hsd] _]]; [|congruence].
      rewrite Hnone in Hsave. rewrite Hnone in Hsd. symmetry in Hsd.
      destruct (IHnone Hsd) as (Hacc1 & Hfiles1 & Hsaved1).
      apply save_block_inv in Hsave as [(_ & d & Hd & _)|(_ & -> & ->)]; [discriminate|].
      by rewrite Hacc, Hacc1.
    + intros Hsome. destruct Hbest as [[Hacc Hsd]|[_ Hrange]]; [|exact Hrange].
      rewrite Hacc. apply IHsome. by rewrite <- Hsd.
Qed.

Lemma no_checkpoint_before_first_best_witness :
  best_state_dict toy_state = None /\ st_saved toy_state = [] /\
  train_loop (H := toy_external) toy_config (toy_loader 2 1 true)
    (toy_loader 2 1 false) 2 toy_state = Ok (toy_after 2) /\
  (is_Some (best_state_dict (toy_after 2)) ->
   (0 <= best_accuracy (toy_after 2) <= 1)%Q).
Proof.
  assert (Hrun : train_loop (H := toy_external) toy_config (toy_loader 2 1 true)
                   (toy_loader 2 1 false) 2 toy_state = Ok (toy_after 2))
    by (vm_compute; reflexivity).
  exact (conj eq_refl (conj eq_refl (conj Hrun
    (proj2 (no_checkpoint_before_first_best (H := toy_external) toy_config
       (toy_loader 2 1 true) (toy_loader 2 1 false) 2 toy_state (toy_after 2)
       eq_refl eq_refl Hrun))))).
Defined.

(** ** Instances of the case analyses *)

Lemma valid_accuracy_range_witness :
  exists acc r,
    valid (H := toy_external) (toy_loader 2 1 false) toy_heap toy_model 0 = Ok (acc, r) /\
    (0 <= acc <= 1)%Q.
Proof.
  eexists. eexists.
  assert (Hvalid : valid (H := toy_external) (toy_loader 2 1 false) toy_heap toy_model 0
                   = Ok ((0 # 2)%Q, (toy_heap, toy_model, 2%nat)))
    by (vm_compute; reflexivity).
  exact (conj Hvalid
    (proj1 (valid_accuracy_range (H := toy_external) (toy_loader 2 1 false))
       toy_heap toy_model 0%nat _ _ Hvalid)).
Defined.

Lemma inference_collate_batch_outcomes_witness :
  Exists (fun p : string * mel => length p.2 <> length toy_mel)
    [("uttr-b.pt"%string, [toy_frame 4])] /\
  inference_collate_batch [("uttr-a.pt"%string, toy_mel); ("uttr-b.pt"%string, [toy_frame 4])]
  = Raise RuntimeError.
Proof.
  assert (Hdiff : Exists (fun p : string * mel => length p.2 <> length toy_mel)
                    [("uttr-b.pt"%string, [toy_frame 4])])
    by (apply Exists_cons_hd; cbn; discriminate).
  exact (conj Hdiff
    (proj1 (proj2 (proj2 (inference_collate_batch_outcomes
       [("uttr-a.pt"%string, toy_mel); ("uttr-b.pt"%string, [toy_frame 4])])))
       "uttr-a.pt"%string toy_mel _ eq_refl Hdiff)).
Defined.
